(** * ManSearchProvider: the search engine and its GNOME Shell adapter

    A shallow embedding of [SearchEngine] (searchManPages, getPageInfo,
    runSubprocess, parseOutput) and of [SearchProvider]
    (getInitialResultSet, filterResults, getResultMetas), followed by the
    properties of the specification that concern them.

    JavaScript strings are sequences of UTF-16 code units; they are lists
    of numbers here.  The GLib/Gio calls are an environment the engine
    runs in: a record of oracles that may return or raise.  The engine's
    [async] methods suspend only on the subprocess; they are sequential
    computations over a state holding the cancellation flag and the trace
    of process events.  Calls to [console] are not part of the model. *)

From Stdlib Require Import String Ascii.
From Stdlib Require Import List NArith ZArith Bool Arith Lia.
Import ListNotations.

(** ** Strings *)

Module Js.

Definition char := N.
Definition str := list char.

(** A string literal of the source. *)
Definition lit (s : string) : str :=
  map N_of_ascii (list_ascii_of_string s).

Definition LF : char := 10%N.
Definition NUL : char := 0%N.
Definition LPAREN : char := 40%N.
Definition RPAREN : char := 41%N.
Definition MINUS : char := 45%N.
Definition PIPE : char := 124%N.
Definition SPACE : char := 32%N.
Definition DQUOTE : char := 34%N.

(** WhiteSpace and LineTerminator of ECMAScript: what [trim] strips and
    what [\s] matches. *)
Definition is_space (c : char) : bool :=
  ((9 <=? c) && (c <=? 13) || (c =? 32) || (c =? 160) || (c =? 5760)
   || (8192 <=? c) && (c <=? 8202) || (c =? 8232) || (c =? 8233)
   || (c =? 8239) || (c =? 8287) || (c =? 12288) || (c =? 65279))%N.

(** LineTerminator: what [.] does not match. *)
Definition is_line_terminator (c : char) : bool :=
  ((c =? 10) || (c =? 13) || (c =? 8232) || (c =? 8233))%N.

Fixpoint trimStart (s : str) : str :=
  match s with
  | c :: s' => if is_space c then trimStart s' else s
  | [] => []
  end.

Definition trimEnd (s : str) : str := rev (trimStart (rev s)).

Definition trim (s : str) : str := trimEnd (trimStart s).

(** [s.split(sep)] for a separator that matches exactly one character:
    the string ['|'] or the class [/[\n\0]/].  The empty string splits
    into one empty piece. *)
Fixpoint split (sep : char -> bool) (s : str) : list str :=
  match s with
  | [] => [[]]
  | c :: s' =>
      if sep c then [] :: split sep s'
      else match split sep s' with
           | piece :: pieces => (c :: piece) :: pieces
           | [] => [[c]]
           end
  end.

(** [pieces.join(sep)]. *)
Fixpoint join (sep : str) (pieces : list str) : str :=
  match pieces with
  | [] => []
  | [p] => p
  | p :: rest => p ++ sep ++ join sep rest
  end.

(** A string is truthy when it is not empty. *)
Definition truthy (s : str) : bool :=
  match s with [] => false | _ => true end.

(** [a.slice(start, end)] for indices within [0, a.length]. *)
Definition slice {A} (start stop : nat) (a : list A) : list A :=
  firstn (stop - start) (skipn start a).

End Js.

(** ** The line pattern

    [/^([^\s]+)\s*\(([^)]+)\)\s*-\s*(.+)/] as backtracking matchers in
    continuation style: a greedy quantifier tries the longest repetition
    first and gives characters back while the rest of the pattern fails.
    The continuation receives the matched text and the remaining input. *)

Module Regex.
Import Js.

Section Matchers.
Variable R : Type.

(** [p*], greedy. *)
Fixpoint star (p : char -> bool) (s : str)
         (k : str -> str -> option R) : option R :=
  match s with
  | c :: s' =>
      if p c then
        match star p s' (fun m rest => k (c :: m) rest) with
        | Some r => Some r
        | None => k [] s
        end
      else k [] s
  | [] => k [] []
  end.

(** [p+], greedy. *)
Definition plus (p : char -> bool) (s : str)
           (k : str -> str -> option R) : option R :=
  match s with
  | c :: s' => if p c then star p s' (fun m rest => k (c :: m) rest) else None
  | [] => None
  end.

(** One literal character. *)
Definition chr (c : char) (s : str) (k : str -> option R) : option R :=
  match s with
  | c' :: s' => if (c' =? c)%N then k s' else None
  | [] => None
  end.
End Matchers.

Arguments star {R} p s k.
Arguments plus {R} p s k.
Arguments chr {R} c s k.

Definition not_space (c : char) : bool := negb (is_space c).
Definition not_rparen (c : char) : bool := negb (c =? RPAREN)%N.
Definition dot (c : char) : bool := negb (is_line_terminator c).

(** [line.match(/^([^\s]+)\s*\(([^)]+)\)\s*-\s*(.+)/)]: the three
    captured groups, or [None] for a line the pattern rejects.  The
    pattern is anchored at the start only. *)
Definition line_match (line : str) : option (str * str * str) :=
  plus not_space line (fun pageName r1 =>
  star is_space r1 (fun _ r2 =>
  chr LPAREN r2 (fun r3 =>
  plus not_rparen r3 (fun section r4 =>
  chr RPAREN r4 (fun r5 =>
  star is_space r5 (fun _ r6 =>
  chr MINUS r6 (fun r7 =>
  star is_space r7 (fun _ r8 =>
  plus dot r8 (fun description _ =>
  Some (pageName, section, description)))))))))).

End Regex.

Import Js Regex.

(** ** The runtime: cancellation flag, process events, GLib and Gio *)

Module Runtime.

(** What a call can raise: a [GLib.Error] of the Gio domain with code
    CANCELLED, any other [GLib.Error] (shell or spawn error, invalid
    UTF-8, ...), and the engine's own [CancelledError]. *)
Inductive Exn :=
| GioCancelled
| GLibError (message : str)
| CancelledError.

(** The flag of the request's [Gio.Cancellable].  The Shell sets it from
    another thread, at any moment, and it stays set.  [Clear (Some n)] is
    a flag that [n] further calls of [is_cancelled()] find clear and that
    is set before the call after them; [Clear None] is a flag nobody
    sets; [Cancelled] is a flag that has been seen set. *)
Inductive Flag :=
| Clear (fuse : option nat)
| Cancelled.

Definition poll (f : Flag) : bool * Flag :=
  match f with
  | Clear None => (false, Clear None)
  | Clear (Some (S n)) => (false, Clear (Some n))
  | Clear (Some O) => (true, Cancelled)
  | Cancelled => (true, Cancelled)
  end.

(** A handle on the [Gio.Cancellable] of the request; the flag itself
    is in the state, the engine only observes it. *)
Inductive Cancellable := RequestCancellable.

(** A [Gio.Subprocess]: the position of its spawn among the process
    events, and its argument vector. *)
Record Subprocess := { pid : nat; argv : list str }.

Inductive Event :=
| Spawned (p : Subprocess)
| ForceExit (p : Subprocess).

Record Sys := { flag : Flag; trace : list Event }.

(** How a call ends: with a value or with an exception. *)
Inductive Outcome (A : Type) :=
| Ret (a : A)
| Throw (e : Exn).
Arguments Ret {A} a.
Arguments Throw {A} e.

(** The environment: [GLib.shell_parse_argv], whether
    [Gio.Subprocess.new] raises for an argument vector, what
    [communicate_utf8_async] resolves to (standard output and standard
    error) or rejects with, and the scale factor of the theme context.
    GJS raises the [GError] of a failed call as an exception. *)
Record World := {
  shell_parse_argv : str -> Outcome (bool * option (list str));
  spawn_error : Sys -> list str -> option Exn;
  communicate_utf8 : Sys -> Subprocess -> Outcome (str * str);
  scaleFactor : Z
}.

(** Computations of the engine: state passing with exceptions. *)
Definition M (A : Type) := Sys -> Outcome A * Sys.

Definition ret {A} (a : A) : M A := fun s => (Ret a, s).

Definition throw {A} (e : Exn) : M A := fun s => (Throw e, s).

Definition bind {A B} (m : M A) (k : A -> M B) : M B :=
  fun s =>
    match m s with
    | (Ret a, s') => k a s'
    | (Throw e, s') => (Throw e, s')
    end.

(** [try { body } catch (error) { handler } finally { final }]. *)
Definition try_catch_finally {A} (body : M A) (handler : Exn -> M A)
           (final : M unit) : M A :=
  fun s =>
    let (r, s1) := body s in
    let (r', s2) := match r with
                    | Ret a => (Ret a, s1)
                    | Throw e => handler e s1
                    end in
    match final s2 with
    | (Ret _, s3) => (r', s3)
    | (Throw e, s3) => (Throw e, s3)
    end.

(** [try { body } catch (error) { handler }]. *)
Definition try_catch {A} (body : M A) (handler : Exn -> M A) : M A :=
  fun s =>
    match body s with
    | (Ret a, s1) => (Ret a, s1)
    | (Throw e, s1) => handler e s1
    end.

Declare Scope engine_scope.
Delimit Scope engine_scope with engine.
Notation "x <- m ;; k" := (bind m (fun x => k))
  (at level 61, m at next level, right associativity) : engine_scope.
Notation "' pat <- m ;; k" := (bind m (fun x => match x with pat => k end))
  (at level 61, pat pattern, m at next level, right associativity)
  : engine_scope.

(** [cancellable.is_cancelled()]. *)
Definition is_cancelled (_ : Cancellable) : M bool :=
  fun s => let (b, f) := poll (flag s) in
           (Ret b, {| flag := f; trace := trace s |}).

(** [cancellable?.is_cancelled()] as a condition: [undefined] is falsy. *)
Definition is_cancelled_opt (cancellable : option Cancellable) : M bool :=
  match cancellable with
  | Some c => is_cancelled c
  | None => ret false
  end.

Definition emit (e : Event) : M unit :=
  fun s => (Ret tt, {| flag := flag s; trace := trace s ++ [e] |}).

Definition spawned_count (t : list Event) : nat :=
  length (filter (fun e => match e with Spawned _ => true | _ => false end) t).

Section Calls.
Variable W : World.

Definition glib_shell_parse_argv (command : str)
  : M (bool * option (list str)) :=
  fun s => (shell_parse_argv W command, s).

(** [Gio.Subprocess.new(argv, flags)]. *)
Definition gio_subprocess_new (args : list str) : M Subprocess :=
  fun s =>
    match spawn_error W s args with
    | Some e => (Throw e, s)
    | None =>
        let p := {| pid := spawned_count (trace s); argv := args |} in
        (Ret p, {| flag := flag s; trace := trace s ++ [Spawned p] |})
    end.

(** [await subprocess.communicate_utf8_async(null, cancellable)]. *)
Definition communicate_utf8_async (p : Subprocess) : M (str * str) :=
  fun s => (communicate_utf8 W s p, s).

(** [subprocess.force_exit()]. *)
Definition force_exit (p : Subprocess) : M unit := emit (ForceExit p).
End Calls.

End Runtime.

Import Runtime.
Local Open Scope engine_scope.

(** ** SearchEngine *)

Module SearchEngine.

(** [[pageName, section, description]]. *)
Definition ManPageMetaInfo : Type := str * str * str.

Section Engine.
Variable W : World.

(** The body of the [for (const line of lines)] loop of [parseOutput]
    and what follows it; [results] is the array built so far. *)
Fixpoint parseOutput_loop (lines : list str)
         (cancellable : option Cancellable)
         (results : list ManPageMetaInfo) : M (list ManPageMetaInfo) :=
  match lines with
  | [] => ret results
  | line :: rest =>
      let results' :=
        match line_match line with
        | Some (pageName, section, description) =>
            results ++ [(trim pageName, trim section, trim description)]
        | None => results
        end in
      c <- is_cancelled_opt cancellable ;;
      if c then throw CancelledError
      else parseOutput_loop rest cancellable results'
  end.

(** [output.trim().split(/[\n\0]/).filter(line => line.trim())]. *)
Definition output_lines (output : str) : list str :=
  filter (fun line => truthy (trim line))
         (split (fun c => (c =? LF) || (c =? NUL))%N (trim output)).

Definition parseOutput (output : str) (cancellable : option Cancellable)
  : M (list ManPageMetaInfo) :=
  c <- is_cancelled_opt cancellable ;;
  if c then throw CancelledError
  else parseOutput_loop (output_lines output) cancellable [].

Definition runSubprocess (command : str) (cancellable : option Cancellable)
  : M (option (list ManPageMetaInfo)) :=
  c <- is_cancelled_opt cancellable ;;
  if c then ret None
  else
    '(success, args) <- glib_shell_parse_argv W command ;;
    match success, args with
    | true, Some args =>
        subprocess <- gio_subprocess_new W args ;;
        try_catch_finally
          ('(stdout, _) <- communicate_utf8_async W subprocess ;;
           results <- parseOutput stdout cancellable ;;
           ret (Some results))
          (fun _ => ret None)
          (force_exit subprocess)
    | _, _ => ret None
    end.

(** The identifier of a parsed entry: [`${section}|${pageName}`]. *)
Definition identifier_of (info : ManPageMetaInfo) : str :=
  let '(pageName, section, _) := info in
  section ++ lit "|" ++ pageName.

(** [`apropos --and ${terms.join(' ')}`]. *)
Definition apropos_command (terms : list str) : str :=
  lit "apropos --and " ++ join (lit " ") terms.

(** [`whatis -l -s ${identifier.split('|').join(' ')}`]. *)
Definition whatis_command (identifier : str) : str :=
  lit "whatis -l -s "
  ++ join (lit " ") (split (fun c => (c =? PIPE)%N) identifier).

Definition searchManPages (terms : list str)
           (cancellable : option Cancellable) : M (list str) :=
  c <- is_cancelled_opt cancellable ;;
  if c then ret []
  else
    parsedResults <- runSubprocess (apropos_command terms) cancellable ;;
    match parsedResults with
    | None => ret []
    | Some [] => ret []
    | Some parsedResults =>
        c <- is_cancelled_opt cancellable ;;
        if c then ret []
        else
          let identifiers := map identifier_of parsedResults in
          c <- is_cancelled_opt cancellable ;;
          if c then ret [] else ret identifiers
    end.

Definition getPageInfo (identifier : str)
           (cancellable : option Cancellable) : M (option (str * str)) :=
  c <- is_cancelled_opt cancellable ;;
  if c then ret None
  else
    parsedResults <- runSubprocess (whatis_command identifier) cancellable ;;
    match parsedResults with
    | None => ret None
    | Some [] => ret None
    | Some (pageInfoTuple :: _) =>
        c <- is_cancelled_opt cancellable ;;
        if c then ret None
        else
          c <- is_cancelled_opt cancellable ;;
          if c then ret None
          else
            let '(pageName, section, description) := pageInfoTuple in
            ret (Some (pageName ++ lit " (" ++ section ++ lit ")",
                       description))
    end.
End Engine.

End SearchEngine.

(** ** SearchProvider *)

Module SearchProvider.
Import SearchEngine.

(** What [createIcon] builds: [new St.Icon({icon_name, width, height})]. *)
Record Icon := { icon_name : str; width : Z; height : Z }.

Record ResultMeta := {
  id : str;
  name : str;
  description : option str;
  clipboardText : option str;
  createIcon : Z -> Icon
}.

Section Provider.
Variable W : World.

(** [terms[0]?.length ?? 0]. *)
Definition first_term_length (terms : list str) : nat :=
  match terms with
  | term :: _ => length term
  | [] => 0
  end.

Definition getInitialResultSet (terms : list str)
           (cancellable : Cancellable) : M (list str) :=
  c <- is_cancelled cancellable ;;
  if c then ret []
  else if first_term_length terms <? 2 then ret []
  else
    resultIdentifiers <- searchManPages W terms (Some cancellable) ;;
    c <- is_cancelled cancellable ;;
    if c then ret [] else ret resultIdentifiers.

Definition getSubsearchResultSet (_previousIdentifiers terms : list str)
           (cancellable : Cancellable) : M (list str) :=
  c <- is_cancelled cancellable ;;
  if c then ret [] else getInitialResultSet terms cancellable.

Definition ourMax : nat := 7.

Definition filterResults (identifiers : list str) (_maxResults : Z)
  : list str :=
  if length identifiers <=? ourMax then identifiers
  else slice 0 ourMax identifiers.

Definition make_meta (identifier : str) (pageInfo : str * str)
  : ResultMeta :=
  let '(name, description) := pageInfo in
  {| id := identifier;
     name := name;
     description := Some description;
     clipboardText := None;
     createIcon := fun size =>
       {| icon_name := lit "system-help";
          width := size * scaleFactor W;
          height := size * scaleFactor W |} |}.

(** The [for (const identifier of identifiers)] loop of
    [getResultMetas] and what follows it; [resultMetas] is the array
    built so far. *)
Fixpoint getResultMetas_loop (identifiers : list str)
         (cancellable : Cancellable) (resultMetas : list ResultMeta)
  : M (list ResultMeta) :=
  match identifiers with
  | [] =>
      c <- is_cancelled cancellable ;;
      if c then ret [] else ret resultMetas
  | identifier :: rest =>
      c <- is_cancelled cancellable ;;
      if c then ret []
      else
        pageInfo <- getPageInfo W identifier (Some cancellable) ;;
        match pageInfo with
        | None => ret []
        | Some pageInfo =>
            getResultMetas_loop rest cancellable
              (resultMetas ++ [make_meta identifier pageInfo])
        end
  end.

Definition getResultMetas (identifiers : list str)
           (cancellable : Cancellable) : M (list ResultMeta) :=
  c <- is_cancelled cancellable ;;
  if c then ret [] else getResultMetas_loop identifiers cancellable [].
(** An element of a destructured array inside a template literal: a
    missing element is [undefined] and prints as such. *)
Definition element (i : nat) (pieces : list str) : str :=
  nth i pieces (lit "undefined").

(** [`gnome-terminal -- man ${section} ${name}`] with
    [[section, name] = identifier.split('|')]. *)
Definition man_command (identifier : str) : str :=
  let pieces := split (fun c => (c =? PIPE)%N) identifier in
  let section := element 0 pieces in
  let name := element 1 pieces in
  lit "gnome-terminal -- man " ++ section ++ lit " " ++ name.

(** The command line of [launchSearch]; the [\n] of the template are
    line feeds. *)
Definition launch_command (terms : list str) : str :=
  lit "gnome-terminal -- bash -c " ++ [DQUOTE]
  ++ lit "apropos " ++ join (lit " ") terms
  ++ lit "; read -p '" ++ [LF; LF] ++ lit "Press Enter to close...'"
  ++ [DQUOTE].

(** The subprocess is spawned with no flags and the object is dropped;
    the [catch] clause only logs. *)
Definition activateResult (identifier : str) (_terms : list str) : M unit :=
  try_catch
    ('(success, args) <- glib_shell_parse_argv W (man_command identifier) ;;
     match success, args with
     | true, Some args =>
         _ <- gio_subprocess_new W args ;;
         ret tt
     | _, _ => ret tt
     end)
    (fun _ => ret tt).

Definition launchSearch (terms : list str) : M unit :=
  try_catch
    ('(success, args) <- glib_shell_parse_argv W (launch_command terms) ;;
     match success, args with
     | true, Some args =>
         _ <- gio_subprocess_new W args ;;
         ret tt
     | _, _ => ret tt
     end)
    (fun _ => ret tt).
End Provider.

End SearchProvider.

Import SearchEngine SearchProvider.

(** ** A small environment for the examples

    A tokenizer in the manner of [g_shell_parse_argv] (blanks separate
    words, single and double quotes group, an open quote and an empty
    command line are errors; no escapes, no comments), two installed
    commands, and a manual of three pages. *)

Module Demo.

Definition is_quote (c : char) : bool := ((c =? 34) || (c =? 39))%N.
Definition is_blank (c : char) : bool := ((c =? 32) || (c =? 9) || (c =? 10))%N.

Definition flush (word : option str) : list str :=
  match word with Some w => [w] | None => [] end.

Definition push (c : char) (word : option str) : option str :=
  match word with Some w => Some (w ++ [c]) | None => Some [c] end.

Fixpoint tokenize (s : str) (quote : option char) (word : option str)
         (words : list str) : Outcome (list str) :=
  match s with
  | [] =>
      match quote with
      | Some _ =>
          Throw (GLibError (lit "Text ended before matching quote was found"))
      | None => Ret (words ++ flush word)
      end
  | c :: s' =>
      match quote with
      | Some q =>
          if (c =? q)%N then tokenize s' None word words
          else tokenize s' quote (push c word) words
      | None =>
          if is_quote c then
            tokenize s' (Some c)
                     (match word with None => Some [] | w => w end) words
          else if is_blank c then tokenize s' None None (words ++ flush word)
          else tokenize s' None (push c word) words
      end
  end.

Definition parse_argv (command : str) : Outcome (bool * option (list str)) :=
  match tokenize command None None [] with
  | Ret [] => Throw (GLibError (lit "Text was empty"))
  | Ret words => Ret (true, Some words)
  | Throw e => Throw e
  end.

Definition str_eqb (a b : str) : bool :=
  if list_eq_dec N.eq_dec a b then true else false.

Definition argv_eqb (a b : list str) : bool :=
  if list_eq_dec (list_eq_dec N.eq_dec) a b then true else false.

Definition installed (args : list str) : bool :=
  match args with
  | command :: _ =>
      str_eqb command (lit "apropos") || str_eqb command (lit "whatis")
  | [] => false
  end.

(** Standard output of the command lines the manual answers. *)
Definition answers : list (list str * str) :=
  [ ([lit "apropos"; lit "--and"; lit "ls"],
     lit "ls (1)   - list directory contents" ++ [LF]);
    ([lit "apropos"; lit "--and"; lit "list"; lit "directory"],
     lit "dir (1)              - list directory contents" ++ [LF]
     ++ lit "ls (1)               - list directory contents" ++ [LF]
     ++ lit "readdir (3)          - read a directory" ++ [LF]);
    ([lit "whatis"; lit "-l"; lit "-s"; lit "1"; lit "ls"],
     lit "ls (1) - list directory contents");
    ([lit "whatis"; lit "-l"; lit "-s"; lit "1"; lit "dir"],
     lit "dir (1)              - list directory contents" ++ [LF]);
    ([lit "whatis"; lit "-l"; lit "-s"; lit "3"; lit "readdir"],
     lit "readdir (3)          - read a directory" ++ [LF]) ].

Fixpoint answer (table : list (list str * str)) (args : list str)
  : str * str :=
  match table with
  | (line, out) :: table' =>
      if argv_eqb line args then (out, []) else answer table' args
  | [] => ([], lit "nothing appropriate." ++ [LF])
  end.

Definition world : World :=
  {| shell_parse_argv := parse_argv;
     spawn_error := fun _ args =>
       if installed args then None
       else Some (GLibError (lit "Failed to execute child process"));
     communicate_utf8 := fun _ p => Ret (answer answers (argv p));
     scaleFactor := 1 |}.

(** A request nobody cancels, one cancelled before it starts, and one
    cancelled after [n] observations. *)
Definition idle : Sys := {| flag := Clear None; trace := [] |}.
Definition cancelled : Sys := {| flag := Cancelled; trace := [] |}.
Definition cancelled_after (n : nat) : Sys :=
  {| flag := Clear (Some n); trace := [] |}.

End Demo.

(** ** The parser and the cancellation flag, as the specification words them *)

Module Spec.

(** The tuple a line yields: its three groups, trimmed; nothing for a
    line the pattern rejects. *)
Definition line_tuples (line : str) : list ManPageMetaInfo :=
  match line_match line with
  | Some (pageName, section, description) =>
      [(trim pageName, trim section, trim description)]
  | None => []
  end.

(** The tuples of the matching lines, in input order. *)
Definition parse_lines (lines : list str) : list ManPageMetaInfo :=
  flat_map line_tuples lines.

(** A line is well formed when the pattern accepts it. *)
Definition well_formed (line : str) : Prop := line_match line <> None.

Definition no_pipe (s : str) : Prop := ~ In PIPE s.

(** The string starts with a character that is not white space. *)
Definition starts_black (s : str) : Prop :=
  exists c rest, s = c :: rest /\ is_space c = false.

(** The call has seen the flag of its cancellable set. *)
Definition observed (cancellable : option Cancellable) (s : Sys) : bool :=
  match cancellable, flag s with
  | Some _, Cancelled => true
  | _, _ => false
  end.

(** The flag is set: [is_cancelled()] answers [true]. *)
Definition is_set (s : Sys) : bool := fst (poll (flag s)).

(** A request nobody cancels while the call runs: the call has no
    cancellable, or the flag of its cancellable is never set. *)
Definition uncancelled (cancellable : option Cancellable) (s : Sys) : Prop :=
  cancellable = None \/ flag s = Clear None.

(** No white space at either end. *)
Definition trimmed (s : str) : Prop :=
  (forall c rest, s = c :: rest -> is_space c = false)
  /\ (forall c front, s = front ++ [c] -> is_space c = false).

(** Process events in which every subprocess spawned is forced to exit
    before the next one is spawned. *)
Inductive reaped : list Event -> Prop :=
| reaped_nil : reaped []
| reaped_cons (p : Subprocess) (events : list Event) :
    reaped events -> reaped (Spawned p :: ForceExit p :: events).


(** [s.replaceAll(c, d)] for single characters. *)
Definition replace_char (c d : char) (s : str) : str :=
  map (fun x => if (x =? c)%N then d else x) s.

(** The last piece loses its trailing white space. *)
Fixpoint trim_last (pieces : list str) : list str :=
  match pieces with
  | [] => []
  | [p] => [trimEnd p]
  | p :: rest => p :: trim_last rest
  end.

End Spec.

Import Spec.

(** * Properties *)

(** ** Examples of the line pattern *)

Example line_match_ls :
  line_match (lit "ls (1) - list directory contents")
  = Some (lit "ls", lit "1", lit "list directory contents").
Proof. reflexivity. Qed.

Example line_match_backtracks :
  line_match (lit "ls(1)-x") = Some (lit "ls", lit "1", lit "x").
Proof. reflexivity. Qed.

Example line_match_blank_description :
  line_match (lit "a (1) - ") = Some (lit "a", lit "1", lit " ").
Proof. reflexivity. Qed.

Example line_match_rejects :
  line_match (lit "apropos: nothing appropriate") = None.
Proof. reflexivity. Qed.

(** ** Splitting and joining *)

Section SplitJoin.
Variable sep : char -> bool.

Lemma split_not_nil (s : str) : split sep s <> [].
Proof.
  destruct s as [|c s]; simpl; [discriminate|].
  destruct (sep c); [discriminate|].
  destruct (split sep s); discriminate.
Qed.

Lemma split_without_separator (s : str) :
  Forall (fun c => sep c = false) s -> split sep s = [s].
Proof.
  induction 1 as [|c s Hc _ IH]; simpl; [reflexivity|].
  now rewrite Hc, IH.
Qed.

Lemma split_at_separator (a b : str) (c : char) :
  sep c = true -> split sep (a ++ c :: b) = split sep a ++ split sep b.
Proof.
  intros Hc. induction a as [|x a IH]; simpl.
  - now rewrite Hc.
  - destruct (sep x); [now rewrite IH|].
    rewrite IH. pose proof (split_not_nil a) as Hne.
    destruct (split sep a); [contradiction|reflexivity].
Qed.

Lemma join_cons (c : char) (p q : str) (rest : list str) :
  join [c] (p :: q :: rest) = p ++ c :: join [c] (q :: rest).
Proof. reflexivity. Qed.

Lemma split_join (c : char) (pieces : list str) :
  sep c = true -> pieces <> [] ->
  split sep (join [c] pieces) = flat_map (split sep) pieces.
Proof.
  intros Hc. induction pieces as [|p rest IH]; [contradiction|].
  intros _. destruct rest as [|q rest].
  - simpl. now rewrite app_nil_r.
  - rewrite join_cons, split_at_separator by assumption.
    rewrite IH by discriminate. reflexivity.
Qed.
End SplitJoin.

(** ** Trimming *)

Lemma trimStart_starts_black (s : str) : starts_black s -> trimStart s = s.
Proof. intros (c & rest & -> & Hc). simpl. now rewrite Hc. Qed.

Lemma trimStart_app (u v : str) :
  Exists (fun c => is_space c = false) u ->
  trimStart (u ++ v) = trimStart u ++ v.
Proof.
  induction 1 as [c u Hc|c u _ IH]; simpl.
  - now rewrite Hc.
  - destruct (is_space c); [exact IH|reflexivity].
Qed.

Lemma trimEnd_app (a b : str) :
  Exists (fun c => is_space c = false) b ->
  trimEnd (a ++ b) = a ++ trimEnd b.
Proof.
  intros Hb. unfold trimEnd. rewrite rev_app_distr, trimStart_app.
  - now rewrite rev_app_distr, rev_involutive.
  - apply Exists_exists. apply Exists_exists in Hb as (c & Hin & Hc).
    exists c. split; [now apply in_rev in Hin|exact Hc].
Qed.

Lemma starts_black_Exists (s t : str) :
  starts_black s -> Exists (fun c => is_space c = false) (s ++ t).
Proof. intros (c & rest & -> & Hc). now left. Qed.

Lemma join_starts_black (c : char) (p : str) (rest : list str) :
  starts_black p -> starts_black (join [c] (p :: rest)).
Proof.
  intros (x & p' & -> & Hx). exists x.
  destruct rest as [|q rest]; simpl; eauto.
Qed.

Lemma trimEnd_join (c : char) (pieces : list str) :
  Forall starts_black pieces ->
  trimEnd (join [c] pieces) = join [c] (trim_last pieces).
Proof.
  induction 1 as [|p rest Hp Hrest IH]; [reflexivity|].
  destruct rest as [|q rest]; [reflexivity|].
  rewrite join_cons.
  change (p ++ c :: join [c] (q :: rest))
    with (p ++ [c] ++ join [c] (q :: rest)).
  rewrite app_assoc, trimEnd_app.
  - rewrite IH. change (trim_last (p :: q :: rest))
      with (p :: trim_last (q :: rest)).
    destruct (trim_last (q :: rest)) as [|q' rest'] eqn:E.
    + destruct rest; discriminate.
    + rewrite join_cons, <- app_assoc. reflexivity.
  - inversion Hrest as [|? ? Hq _]; subst.
    rewrite <- (app_nil_r (join _ _)).
    apply starts_black_Exists, join_starts_black, Hq.
Qed.

Lemma trim_join (c : char) (pieces : list str) :
  Forall starts_black pieces ->
  trim (join [c] pieces) = join [c] (trim_last pieces).
Proof.
  intros H. unfold trim. rewrite <- trimEnd_join by assumption.
  f_equal. destruct H as [|p rest Hp _]; [reflexivity|].
  apply trimStart_starts_black, join_starts_black, Hp.
Qed.

Lemma trim_last_not_nil (pieces : list str) :
  pieces <> [] -> trim_last pieces <> [].
Proof. destruct pieces as [|p [|q rest]]; simpl; congruence. Qed.

Lemma well_formed_starts_black (line : str) :
  well_formed line -> starts_black line.
Proof.
  unfold well_formed, line_match, plus, not_space.
  destruct line as [|c rest]; [congruence|].
  destruct (is_space c) eqn:Hc; simpl; [congruence|].
  intros _. now exists c, rest.
Qed.

(** The lines [parseOutput] sees do not depend on which of the two
    separators joined them. *)
Lemma output_lines_join (c : char) (lines : list str) :
  ((c =? LF) || (c =? NUL))%N = true ->
  Forall well_formed lines ->
  output_lines (join [c] lines)
  = match lines with
    | [] => []
    | _ => filter (fun line => truthy (trim line))
                  (flat_map (split (fun c => (c =? LF) || (c =? NUL))%N)
                            (trim_last lines))
    end.
Proof.
  intros Hc Hwf. destruct lines as [|p rest]; [reflexivity|].
  unfold output_lines. rewrite trim_join.
  - rewrite split_join; [reflexivity|exact Hc|].
    apply trim_last_not_nil. discriminate.
  - eapply Forall_impl; [|exact Hwf]. apply well_formed_starts_black.
Qed.

(** ** Observing the flag *)

Lemma is_cancelled_opt_run (cancellable : option Cancellable) (s : Sys) :
  exists s',
    is_cancelled_opt cancellable s = (Ret (observed cancellable s'), s')
    /\ trace s' = trace s
    /\ (observed cancellable s = true -> s' = s).
Proof.
  exists (snd (is_cancelled_opt cancellable s)).
  destruct s as [f t]. destruct cancellable as [c|].
  - destruct f as [[[|n]|]|]; cbn; repeat split; congruence.
  - cbn. repeat split.
Qed.

Lemma is_cancelled_run (c : Cancellable) (s : Sys) :
  exists s',
    is_cancelled c s = (Ret (observed (Some c) s'), s')
    /\ trace s' = trace s
    /\ (observed (Some c) s = true -> s' = s).
Proof. exact (is_cancelled_opt_run (Some c) s). Qed.

Lemma observed_flag (cancellable : option Cancellable) (s s' : Sys) :
  flag s' = flag s -> observed cancellable s' = observed cancellable s.
Proof. unfold observed. now intros ->. Qed.

Lemma observed_Cancelled (c : Cancellable) (s : Sys) :
  flag s = Cancelled <-> observed (Some c) s = true.
Proof.
  unfold observed. destruct (flag s); split; congruence.
Qed.

(** ** parseOutput *)

Lemma parse_lines_cons (line : str) (rest : list str) :
  parse_lines (line :: rest) = line_tuples line ++ parse_lines rest.
Proof. reflexivity. Qed.

Lemma parse_lines_app (pre post : list str) :
  parse_lines (pre ++ post) = parse_lines pre ++ parse_lines post.
Proof. apply flat_map_app. Qed.

Lemma parseOutput_loop_run (lines : list str)
      (cancellable : option Cancellable) :
  forall (results : list ManPageMetaInfo) (s : Sys),
    observed cancellable s = false ->
    exists s',
      parseOutput_loop lines cancellable results s
      = (if observed cancellable s' then Throw CancelledError
         else Ret (results ++ parse_lines lines), s')
      /\ trace s' = trace s.
Proof.
  induction lines as [|line rest IH]; intros results s Hs.
  - exists s. cbn. rewrite Hs, app_nil_r. auto.
  - cbn [parseOutput_loop]. unfold bind.
    destruct (is_cancelled_opt_run cancellable s) as (s1 & -> & Ht & _).
    destruct (observed cancellable s1) eqn:H1.
    + exists s1. unfold throw. rewrite H1. auto.
    + match goal with
      | |- context [parseOutput_loop rest cancellable ?acc s1] =>
          destruct (IH acc s1 H1) as (s' & -> & Ht')
      end.
      exists s'. split; [|congruence].
      destruct (observed cancellable s'); [reflexivity|].
      rewrite parse_lines_cons. unfold line_tuples.
      destruct (line_match line) as [[[pageName section] description]|].
      * now rewrite <- app_assoc.
      * reflexivity.
Qed.

Lemma parseOutput_run (output : str) (cancellable : option Cancellable)
      (s : Sys) :
  exists s',
    parseOutput output cancellable s
    = (if observed cancellable s' then Throw CancelledError
       else Ret (parse_lines (output_lines output)), s')
    /\ trace s' = trace s.
Proof.
  unfold parseOutput, bind.
  destruct (is_cancelled_opt_run cancellable s) as (s1 & -> & Ht & _).
  destruct (observed cancellable s1) eqn:H1.
  - exists s1. unfold throw. rewrite H1. auto.
  - destruct (@parseOutput_loop_run (output_lines output) cancellable [] s1 H1)
      as (s' & -> & Ht').
    exists s'. split; [reflexivity|congruence].
Qed.

(** C5.  For well-formed lines, parsing the lines joined with the
    newline character and parsing them joined with the NUL character is
    the same run: the same tuples in the same order, whatever the
    cancellable and the state of its flag. *)
Theorem parseOutput_separator_independent
        (lines : list str) (cancellable : option Cancellable) (s : Sys) :
  Forall well_formed lines ->
  parseOutput (join [LF] lines) cancellable s
  = parseOutput (join [NUL] lines) cancellable s.
Proof.
  intros Hwf. unfold parseOutput.
  now rewrite !output_lines_join by (assumption || reflexivity).
Qed.

Lemma parseOutput_separator_independent_witness :
  Forall well_formed [lit "aaa (1)   - ccc"; lit "bbb (2)   - xxx"]
  /\ parseOutput (join [LF] [lit "aaa (1)   - ccc"; lit "bbb (2)   - xxx"])
                 None Demo.idle
     = (Ret [(lit "aaa", lit "1", lit "ccc"); (lit "bbb", lit "2", lit "xxx")],
        Demo.idle)
  /\ parseOutput (join [LF] [lit "aaa (1)   - ccc"; lit "bbb (2)   - xxx"])
                 None Demo.idle
     = parseOutput (join [NUL] [lit "aaa (1)   - ccc"; lit "bbb (2)   - xxx"])
                   None Demo.idle.
Proof.
  assert (H : Forall well_formed
                     [lit "aaa (1)   - ccc"; lit "bbb (2)   - xxx"])
    by (repeat constructor; discriminate).
  split; [exact H|]. split; [reflexivity|].
  exact (parseOutput_separator_independent _ None Demo.idle H).
Defined.

(** C8.  When the call does not see its flag set, [parseOutput] returns
    the tuples of the matching lines in input order: a line the pattern
    rejects adds nothing, raises nothing, and the lines after it are
    parsed as if it were not there. *)
Theorem parseOutput_skips_unmatched
        (output : str) (cancellable : option Cancellable) (s : Sys) :
  observed cancellable (snd (parseOutput output cancellable s)) = false ->
  fst (parseOutput output cancellable s)
  = Ret (parse_lines (output_lines output))
  /\ forall pre bad post,
      output_lines output = pre ++ bad :: post ->
      line_match bad = None ->
      fst (parseOutput output cancellable s)
      = Ret (parse_lines pre ++ parse_lines post).
Proof.
  destruct (parseOutput_run output cancellable s) as (s' & -> & _).
  cbn [fst snd]. intros ->. split; [reflexivity|].
  intros pre bad post -> Hbad.
  rewrite parse_lines_app, parse_lines_cons.
  unfold line_tuples. now rewrite Hbad.
Qed.

Lemma parseOutput_skips_unmatched_witness :
  output_lines (lit "dir (1) - list" ++ [LF] ++ lit "no such line"
                ++ [LF] ++ lit "ls (1) - list")
  = [lit "dir (1) - list"] ++ lit "no such line" :: [lit "ls (1) - list"]
  /\ line_match (lit "no such line") = None
  /\ fst (parseOutput (lit "dir (1) - list" ++ [LF] ++ lit "no such line"
                       ++ [LF] ++ lit "ls (1) - list")
                      (Some RequestCancellable) Demo.idle)
     = Ret ([(lit "dir", lit "1", lit "list")]
            ++ [(lit "ls", lit "1", lit "list")]).
Proof.
  split; [reflexivity|]. split; [reflexivity|].
  exact (proj2 (parseOutput_skips_unmatched
                  (lit "dir (1) - list" ++ [LF] ++ lit "no such line"
                   ++ [LF] ++ lit "ls (1) - list")
                  (Some RequestCancellable) Demo.idle eq_refl)
               [lit "dir (1) - list"] (lit "no such line")
               [lit "ls (1) - list"] eq_refl eq_refl).
Defined.

(** ** Identifiers and command lines *)

Lemma no_pipe_Forall (s : str) :
  no_pipe s -> Forall (fun c => (c =? PIPE)%N = false) s.
Proof.
  intros H. apply Forall_forall. intros c Hc.
  apply N.eqb_neq. intros ->. exact (H Hc).
Qed.

Lemma split_identifier (section pageName : str) :
  no_pipe section -> no_pipe pageName ->
  split (fun c => (c =? PIPE)%N) (section ++ lit "|" ++ pageName)
  = [section; pageName].
Proof.
  intros Hs Hn. change (lit "|" ++ pageName) with (PIPE :: pageName).
  rewrite split_at_separator by reflexivity.
  now rewrite !split_without_separator by now apply no_pipe_Forall.
Qed.

(** C2, as the code has it.  For an identifier [section|name] whose
    section and name are free of the separator, [getPageInfo] runs
    [whatis -l -s <section> <name>]: the section is the argument of
    [-s] and the name follows it. *)
Theorem whatis_command_section_then_name (section pageName : str) :
  no_pipe section -> no_pipe pageName ->
  whatis_command (section ++ lit "|" ++ pageName)
  = lit "whatis -l -s " ++ section ++ lit " " ++ pageName.
Proof.
  intros Hs Hn. unfold whatis_command.
  rewrite split_identifier by assumption. reflexivity.
Qed.

Lemma whatis_command_section_then_name_witness :
  no_pipe (lit "1") /\ no_pipe (lit "printf")
  /\ whatis_command (lit "1|printf") = lit "whatis -l -s 1 printf".
Proof.
  assert (H1 : no_pipe (lit "1")) by (cbv; intuition discriminate).
  assert (H2 : no_pipe (lit "printf")) by (cbv; intuition discriminate).
  split; [exact H1|]. split; [exact H2|].
  exact (whatis_command_section_then_name (lit "1") (lit "printf") H1 H2).
Defined.

(** C2, as the specification has it, fails: for the identifier [1|ls]
    the command line is not [whatis -l -s ls 1]. *)
Lemma whatis_command_not_name_then_section :
  whatis_command (lit "1" ++ lit "|" ++ lit "ls")
  <> lit "whatis -l -s " ++ lit "ls" ++ lit " " ++ lit "1".
Proof. discriminate. Qed.

(** C6.  The identifier built by [searchManPages] from a parsed entry
    whose name and section are free of ['|'] splits on ['|'] into the
    section and the name, in that order, as [getPageInfo] and
    [activateResult] take them. *)
Theorem identifier_round_trip (pageName section description : str) :
  no_pipe pageName -> no_pipe section ->
  split (fun c => (c =? PIPE)%N)
        (identifier_of (pageName, section, description))
  = [section; pageName].
Proof. intros Hn Hs. now apply split_identifier. Qed.

Lemma identifier_round_trip_witness :
  no_pipe (lit "ls") /\ no_pipe (lit "1")
  /\ split (fun c => (c =? PIPE)%N)
           (identifier_of (lit "ls", lit "1", lit "list directory contents"))
     = [lit "1"; lit "ls"].
Proof.
  assert (H1 : no_pipe (lit "ls")) by (cbv; intuition discriminate).
  assert (H2 : no_pipe (lit "1")) by (cbv; intuition discriminate).
  split; [exact H1|]. split; [exact H2|].
  exact (identifier_round_trip (lit "ls") (lit "1")
           (lit "list directory contents") H1 H2).
Defined.

(** ** filterResults *)

(** C3.  [filterResults] returns the first [min 7 (length identifiers)]
    identifiers, unchanged and in place, whatever [maxResults] is. *)
Theorem filterResults_prefix (identifiers : list str) (maxResults : Z) :
  filterResults identifiers maxResults
  = firstn (Nat.min 7 (length identifiers)) identifiers
  /\ length (filterResults identifiers maxResults)
     = Nat.min 7 (length identifiers)
  /\ (exists rest, identifiers = filterResults identifiers maxResults ++ rest)
  /\ forall maxResults',
      filterResults identifiers maxResults'
      = filterResults identifiers maxResults.
Proof.
  assert (E : forall m, filterResults identifiers m
                        = firstn (Nat.min 7 (length identifiers)) identifiers).
  { intros m. unfold filterResults, ourMax, slice.
    destruct (Nat.leb_spec (length identifiers) 7) as [H|H].
    - rewrite Nat.min_r by exact H. now rewrite firstn_all.
    - rewrite Nat.min_l by lia. reflexivity. }
  rewrite !E. repeat split.
  - rewrite length_firstn. lia.
  - exists (skipn (Nat.min 7 (length identifiers)) identifiers).
    now rewrite firstn_skipn.
  - intros m. apply E.
Qed.

(** ** runSubprocess *)

Section RunSubprocess.
Variable W : World.

(** A call that starts with the flag seen set does nothing. *)
Lemma runSubprocess_cancelled (command : str)
      (cancellable : option Cancellable) (s : Sys) :
  observed cancellable s = true ->
  runSubprocess W command cancellable s = (Ret None, s).
Proof.
  intros Hs. unfold runSubprocess, bind.
  destruct (is_cancelled_opt_run cancellable s) as (s1 & -> & _ & E).
  rewrite (E Hs), Hs. reflexivity.
Qed.

(** A call that has seen the flag set returns [null]. *)
Lemma runSubprocess_observed (command : str)
      (cancellable : option Cancellable) (s : Sys) :
  observed cancellable (snd (runSubprocess W command cancellable s)) = true ->
  fst (runSubprocess W command cancellable s) = Ret None.
Proof.
  unfold runSubprocess, bind.
  destruct (is_cancelled_opt_run cancellable s) as (s1 & -> & _ & _).
  destruct (observed cancellable s1) eqn:H1; [reflexivity|].
  unfold glib_shell_parse_argv.
  destruct (shell_parse_argv W command) as [[[|] [args|]]|e];
    cbn [fst snd]; try (intros; (congruence || reflexivity)).
  unfold gio_subprocess_new.
  destruct (spawn_error W s1 args) as [e|]; cbn [fst snd]; [congruence|].
  unfold try_catch_finally, bind, communicate_utf8_async, force_exit, emit.
  match goal with
  | |- context [communicate_utf8 W ?s2 ?p] =>
      destruct (communicate_utf8 W s2 p) as [[stdout stderr]|e];
      [destruct (parseOutput_run stdout cancellable s2) as (s3 & -> & _)|]
  end.
  - destruct (observed cancellable s3) eqn:H3; cbn; [reflexivity|].
    unfold observed in *. cbn. congruence.
  - reflexivity.
Qed.

(** What is raised before the [try] block reaches the caller. *)
Lemma runSubprocess_escape (command : str)
      (cancellable : option Cancellable) (s : Sys) (e : Exn) :
  observed cancellable (snd (is_cancelled_opt cancellable s)) = false ->
  shell_parse_argv W command = Throw e
  \/ (exists args,
        shell_parse_argv W command = Ret (true, Some args)
        /\ spawn_error W (snd (is_cancelled_opt cancellable s)) args
           = Some e) ->
  runSubprocess W command cancellable s
  = (Throw e, snd (is_cancelled_opt cancellable s)).
Proof.
  unfold runSubprocess, bind.
  destruct (is_cancelled_opt_run cancellable s) as (s1 & -> & _ & _).
  cbn [snd]. intros ->. unfold glib_shell_parse_argv.
  intros [->|(args & -> & H)]; [reflexivity|].
  unfold gio_subprocess_new. now rewrite H.
Qed.

(** Once the subprocess exists nothing is raised: the [catch] clause
    turns every exception into [null], and the subprocess is forced to
    exit on every path. *)
Lemma runSubprocess_after_spawn (p : Subprocess)
      (cancellable : option Cancellable) (s : Sys) :
  exists (r : option (list ManPageMetaInfo)) (s' : Sys),
    try_catch_finally
      ('(stdout, _) <- communicate_utf8_async W p ;;
       results <- parseOutput stdout cancellable ;;
       ret (Some results))
      (fun _ => ret None)
      (force_exit p) s
    = (Ret r, s')
    /\ trace s' = trace s ++ [ForceExit p].
Proof.
  unfold try_catch_finally, bind, communicate_utf8_async, force_exit, emit.
  destruct (communicate_utf8 W s p) as [[stdout stderr]|e].
  - destruct (parseOutput_run stdout cancellable s) as (s3 & -> & Ht).
    destruct (observed cancellable s3); cbn; rewrite Ht; eauto.
  - cbn. eauto.
Qed.

(** The command line is tokenized, the command starts and its output
    arrives: the call returns the parsed output unless it sees its
    flag set. *)
Lemma runSubprocess_success (command : str)
      (cancellable : option Cancellable) (s : Sys)
      (args : list str) (stdout stderr : str) :
  shell_parse_argv W command = Ret (true, Some args) ->
  (forall s0, spawn_error W s0 args = None) ->
  (forall s0 p, argv p = args ->
                communicate_utf8 W s0 p = Ret (stdout, stderr)) ->
  observed cancellable (snd (runSubprocess W command cancellable s)) = false ->
  fst (runSubprocess W command cancellable s)
  = Ret (Some (parse_lines (output_lines stdout))).
Proof.
  intros Hargv Hspawn Hout.
  unfold runSubprocess, bind.
  destruct (is_cancelled_opt_run cancellable s) as (s1 & -> & _ & _).
  destruct (observed cancellable s1) eqn:H1; [cbn; congruence|].
  unfold glib_shell_parse_argv. rewrite Hargv.
  unfold gio_subprocess_new. rewrite Hspawn.
  unfold try_catch_finally, bind, communicate_utf8_async, force_exit, emit.
  rewrite Hout by reflexivity.
  match goal with
  | |- context [parseOutput stdout cancellable ?s2] =>
      destruct (parseOutput_run stdout cancellable s2) as (s3 & -> & _)
  end.
  destruct (observed cancellable s3) eqn:H3; cbn; [|reflexivity].
  unfold observed in *. cbn. congruence.
Qed.
End RunSubprocess.

(** ** searchManPages and getPageInfo *)

(** One observation of the flag: name the state after it and split on
    what was seen. *)
Ltac observe s1 H :=
  match goal with
  | |- context [is_cancelled_opt ?c ?s] =>
      let Ht := fresh "Ht" in
      let Hs := fresh "Hs" in
      destruct (is_cancelled_opt_run c s) as (s1 & -> & Ht & Hs);
      destruct (observed c s1) eqn:H
  | |- context [is_cancelled ?c ?s] =>
      let Ht := fresh "Ht" in
      let Hs := fresh "Hs" in
      destruct (is_cancelled_run c s) as (s1 & -> & Ht & Hs);
      destruct (observed (Some c) s1) eqn:H
  end.

Section Stages.
Variable W : World.

Lemma searchManPages_cancelled (terms : list str)
      (cancellable : option Cancellable) (s : Sys) :
  observed cancellable s = true ->
  searchManPages W terms cancellable s = (Ret [], s).
Proof.
  intros Hs. unfold searchManPages, bind.
  destruct (is_cancelled_opt_run cancellable s) as (s1 & -> & _ & E).
  rewrite (E Hs), Hs. reflexivity.
Qed.

Lemma getPageInfo_cancelled (identifier : str)
      (cancellable : option Cancellable) (s : Sys) :
  observed cancellable s = true ->
  getPageInfo W identifier cancellable s = (Ret None, s).
Proof.
  intros Hs. unfold getPageInfo, bind.
  destruct (is_cancelled_opt_run cancellable s) as (s1 & -> & _ & E).
  rewrite (E Hs), Hs. reflexivity.
Qed.

Lemma searchManPages_observed (terms : list str)
      (cancellable : option Cancellable) (s : Sys) :
  observed cancellable (snd (searchManPages W terms cancellable s)) = true ->
  fst (searchManPages W terms cancellable s) = Ret [].
Proof.
  unfold searchManPages, bind.
  observe s1 H1; [reflexivity|].
  pose proof (runSubprocess_observed W (apropos_command terms)
                                     cancellable s1) as Hrun.
  destruct (runSubprocess W (apropos_command terms) cancellable s1)
    as [[[[|entry entries]|]|e] s2]; cbn [fst snd] in *;
    try reflexivity.
  - observe s3 H3; [reflexivity|].
    observe s4 H4; [reflexivity|].
    cbn. congruence.
  - intros H. specialize (Hrun H). discriminate.
Qed.

Lemma getPageInfo_observed (identifier : str)
      (cancellable : option Cancellable) (s : Sys) :
  observed cancellable (snd (getPageInfo W identifier cancellable s)) = true ->
  fst (getPageInfo W identifier cancellable s) = Ret None.
Proof.
  unfold getPageInfo, bind.
  observe s1 H1; [reflexivity|].
  pose proof (runSubprocess_observed W (whatis_command identifier)
                                     cancellable s1) as Hrun.
  destruct (runSubprocess W (whatis_command identifier) cancellable s1)
    as [[[[|[[pageName section] description] entries]|]|e] s2];
    cbn [fst snd] in *; try reflexivity.
  - observe s3 H3; [reflexivity|].
    observe s4 H4; [reflexivity|].
    cbn. congruence.
  - intros H. specialize (Hrun H). discriminate.
Qed.

Section Answered.
Variables (command : str) (args : list str) (stdout stderr : str).
Hypothesis tokenized : shell_parse_argv W command = Ret (true, Some args).
Hypothesis started : forall s0, spawn_error W s0 args = None.
Hypothesis answered :
  forall s0 p, argv p = args ->
               communicate_utf8 W s0 p = Ret (stdout, stderr).

Lemma searchManPages_success (terms : list str)
      (cancellable : option Cancellable) (s : Sys) :
  apropos_command terms = command ->
  observed cancellable (snd (searchManPages W terms cancellable s))
  = false ->
  fst (searchManPages W terms cancellable s)
  = Ret (map identifier_of (parse_lines (output_lines stdout))).
Proof.
  intros Hcmd. unfold searchManPages, bind. rewrite Hcmd.
  observe s1 H1; [cbn; congruence|].
  pose proof (runSubprocess_success W command cancellable s1
                args stdout stderr tokenized started answered) as Hrun.
  destruct (runSubprocess W command cancellable s1) as [r s2].
  cbn [fst snd] in Hrun.
  destruct r as [[[|entry entries]|]|e].
  - cbn. intros H. specialize (Hrun H).
    injection Hrun as <-. reflexivity.
  - destruct (observed cancellable s2) eqn:E2.
    + observe s3 H3; [cbn; congruence|]. exfalso.
      match goal with
      | Hm : _ -> s3 = s2 |- _ => rewrite (Hm E2) in H3
      end.
      congruence.
    + specialize (Hrun eq_refl). injection Hrun as <-.
      observe s3 H3; [cbn; congruence|].
      observe s4 H4; [cbn; congruence|].
      reflexivity.
  - cbn. intros H. specialize (Hrun H). discriminate.
  - cbn. intros H. specialize (Hrun H). discriminate.
Qed.

Lemma getPageInfo_success (identifier : str)
      (cancellable : option Cancellable) (s : Sys)
      (pageName section description : str)
      (more : list ManPageMetaInfo) :
  whatis_command identifier = command ->
  parse_lines (output_lines stdout)
  = (pageName, section, description) :: more ->
  observed cancellable (snd (getPageInfo W identifier cancellable s))
  = false ->
  fst (getPageInfo W identifier cancellable s)
  = Ret (Some (pageName ++ lit " (" ++ section ++ lit ")", description)).
Proof.
  intros Hcmd Hparsed. unfold getPageInfo, bind. rewrite Hcmd.
  observe s1 H1; [cbn; congruence|].
  pose proof (runSubprocess_success W command cancellable s1
                args stdout stderr tokenized started answered) as Hrun.
  destruct (runSubprocess W command cancellable s1) as [r s2].
  cbn [fst snd] in Hrun. rewrite Hparsed in Hrun.
  destruct r as [[[|[[pageName' section'] description'] entries]|]|e].
  - cbn. intros H. specialize (Hrun H). discriminate.
  - destruct (observed cancellable s2) eqn:E2.
    + observe s3 H3; [cbn; congruence|]. exfalso.
      match goal with
      | Hm : _ -> s3 = s2 |- _ => rewrite (Hm E2) in H3
      end.
      congruence.
    + specialize (Hrun eq_refl). injection Hrun as -> -> -> ->.
      observe s3 H3; [cbn; congruence|].
      observe s4 H4; [cbn; congruence|].
      reflexivity.
  - cbn. intros H. specialize (Hrun H). discriminate.
  - cbn. intros H. specialize (Hrun H). discriminate.
Qed.
End Answered.
End Stages.

Lemma is_cancelled_opt_uncancelled (cancellable : option Cancellable)
      (s : Sys) :
  uncancelled cancellable s ->
  is_cancelled_opt cancellable s = (Ret false, s).
Proof.
  intros [->|H]; [reflexivity|].
  destruct cancellable as [c|]; [|reflexivity].
  destruct s as [f t]. cbn in H. subst f. reflexivity.
Qed.

(** ** Cancellation *)

(** C4.  A call of [searchManPages] made while the flag is set returns
    the empty list, and a call of [getPageInfo] returns [null], after
    that one observation and nothing else; and a call that has seen the
    flag set at any of its checks, the last one before [return]
    included, returns the empty list, respectively [null], whatever it
    had computed. *)
Theorem cancelled_request_yields_nothing
        (W : World) (c : Cancellable) (s : Sys) :
  (forall terms,
      (is_set s = true ->
       searchManPages W terms (Some c) s
       = (Ret [], {| flag := Cancelled; trace := trace s |}))
      /\ (flag (snd (searchManPages W terms (Some c) s)) = Cancelled ->
          fst (searchManPages W terms (Some c) s) = Ret []))
  /\ (forall identifier,
      (is_set s = true ->
       getPageInfo W identifier (Some c) s
       = (Ret None, {| flag := Cancelled; trace := trace s |}))
      /\ (flag (snd (getPageInfo W identifier (Some c) s)) = Cancelled ->
          fst (getPageInfo W identifier (Some c) s) = Ret None)).
Proof.
  assert (Hfirst : is_set s = true ->
                   is_cancelled_opt (Some c) s
                   = (Ret true, {| flag := Cancelled; trace := trace s |})).
  { unfold is_set. destruct s as [[[[|n]|]|] t]; cbn; congruence. }
  split; intros x; split; intros H.
  - unfold searchManPages, bind. now rewrite (Hfirst H).
  - apply (observed_Cancelled c) in H. now apply searchManPages_observed.
  - unfold getPageInfo, bind. now rewrite (Hfirst H).
  - apply (observed_Cancelled c) in H. now apply getPageInfo_observed.
Qed.

Lemma cancelled_request_yields_nothing_witness :
  (is_set Demo.cancelled = true
   /\ searchManPages Demo.world [lit "list"; lit "directory"]
                     (Some RequestCancellable) Demo.cancelled
      = (Ret [], Demo.cancelled))
  /\ (flag (snd (searchManPages Demo.world [lit "list"; lit "directory"]
                                (Some RequestCancellable)
                                (Demo.cancelled_after 7)))
      = Cancelled
      /\ fst (searchManPages Demo.world [lit "list"; lit "directory"]
                             (Some RequestCancellable)
                             (Demo.cancelled_after 7))
         = Ret [])
  /\ (is_set (Demo.cancelled_after 0) = true
      /\ getPageInfo Demo.world (lit "1|ls")
                     (Some RequestCancellable) (Demo.cancelled_after 0)
         = (Ret None, Demo.cancelled))
  /\ (flag (snd (getPageInfo Demo.world (lit "1|ls")
                             (Some RequestCancellable)
                             (Demo.cancelled_after 5)))
      = Cancelled
      /\ fst (getPageInfo Demo.world (lit "1|ls")
                          (Some RequestCancellable) (Demo.cancelled_after 5))
         = Ret None).
Proof.
  split; [|split; [|split]]; (split; [reflexivity|]).
  - apply (proj1 (cancelled_request_yields_nothing
                    Demo.world RequestCancellable Demo.cancelled)).
    reflexivity.
  - apply (proj1 (cancelled_request_yields_nothing
                    Demo.world RequestCancellable (Demo.cancelled_after 7))).
    reflexivity.
  - apply (proj2 (cancelled_request_yields_nothing
                    Demo.world RequestCancellable (Demo.cancelled_after 0))).
    reflexivity.
  - apply (proj2 (cancelled_request_yields_nothing
                    Demo.world RequestCancellable (Demo.cancelled_after 5))).
    reflexivity.
Defined.

(** The last check decides: one observation later the same request
    returns what it computed. *)
Example searchManPages_cancelled_too_late :
  searchManPages Demo.world [lit "list"; lit "directory"]
                 (Some RequestCancellable) (Demo.cancelled_after 8)
  = (Ret [lit "1|dir"; lit "1|ls"; lit "3|readdir"],
     {| flag := Clear (Some 0);
        trace := [Spawned {| pid := 0;
                             argv := [lit "apropos"; lit "--and";
                                      lit "list"; lit "directory"] |};
                  ForceExit {| pid := 0;
                               argv := [lit "apropos"; lit "--and";
                                        lit "list"; lit "directory"] |}] |}).
Proof. reflexivity. Qed.

(** E5: a request cancelled before the call spawns nothing. *)
Example searchManPages_cancelled_spawns_nothing :
  trace (snd (searchManPages Demo.world [lit "ls"]
                             (Some RequestCancellable) Demo.cancelled)) = [].
Proof. reflexivity. Qed.

(** E2. *)
Example searchManPages_ls :
  fst (searchManPages Demo.world [lit "ls"] None Demo.idle)
  = Ret [lit "1|ls"].
Proof. reflexivity. Qed.

(** ** The detail pair *)

(** C7.  When the [whatis] command line is tokenized, the command
    starts, its output parses to a non-empty list of tuples and the call
    does not see its flag set, [getPageInfo] returns the title
    [name (section)] and the description of the first tuple. *)
Theorem getPageInfo_title_and_description
        (W : World) (identifier : str) (cancellable : option Cancellable)
        (s : Sys) (args : list str) (stdout stderr : str)
        (pageName section description : str) (more : list ManPageMetaInfo) :
  shell_parse_argv W (whatis_command identifier) = Ret (true, Some args) ->
  (forall s0, spawn_error W s0 args = None) ->
  (forall s0 p, argv p = args ->
                communicate_utf8 W s0 p = Ret (stdout, stderr)) ->
  parse_lines (output_lines stdout)
  = (pageName, section, description) :: more ->
  observed cancellable (snd (getPageInfo W identifier cancellable s)) = false ->
  fst (getPageInfo W identifier cancellable s)
  = Ret (Some (pageName ++ lit " (" ++ section ++ lit ")", description)).
Proof.
  intros Hargv Hspawn Hout Hparsed Hclear.
  exact (getPageInfo_success W (whatis_command identifier) args stdout stderr
           Hargv Hspawn Hout identifier cancellable s
           pageName section description more eq_refl Hparsed Hclear).
Qed.

(** E3: identifier [1|ls], output [ls (1) - list directory contents]. *)
Lemma getPageInfo_title_and_description_witness :
  parse_lines (output_lines (lit "ls (1) - list directory contents"))
  = [(lit "ls", lit "1", lit "list directory contents")]
  /\ fst (getPageInfo Demo.world (lit "1|ls")
                      (Some RequestCancellable) Demo.idle)
     = Ret (Some (lit "ls (1)", lit "list directory contents")).
Proof.
  split; [reflexivity|].
  refine (getPageInfo_title_and_description
            Demo.world (lit "1|ls") (Some RequestCancellable) Demo.idle
            [lit "whatis"; lit "-l"; lit "-s"; lit "1"; lit "ls"]
            (lit "ls (1) - list directory contents") []
            (lit "ls") (lit "1") (lit "list directory contents") []
            eq_refl (fun _ => eq_refl) _ eq_refl eq_refl).
  intros s0 [n a] E. cbn in E. subst a. reflexivity.
Defined.

(** E4: a command without output gives [null]. *)
Example getPageInfo_unknown_page :
  fst (getPageInfo Demo.world (lit "225|nonexistent") None Demo.idle)
  = Ret None.
Proof. reflexivity. Qed.

(** ** Exceptions *)

(** C1, where the code departs from it.  [GLib.shell_parse_argv] and
    [Gio.Subprocess.new] are called before the [try] block of
    [runSubprocess]: in a request nobody cancels, what either of them
    raises is raised by [runSubprocess], and by [searchManPages] and
    [getPageInfo] for their command lines. *)
Theorem runSubprocess_raises_before_try
        (W : World) (command : str) (cancellable : option Cancellable)
        (s : Sys) (e : Exn) :
  uncancelled cancellable s ->
  shell_parse_argv W command = Throw e
  \/ (exists args,
        shell_parse_argv W command = Ret (true, Some args)
        /\ spawn_error W s args = Some e) ->
  runSubprocess W command cancellable s = (Throw e, s)
  /\ (forall terms,
        apropos_command terms = command ->
        searchManPages W terms cancellable s = (Throw e, s))
  /\ (forall identifier,
        whatis_command identifier = command ->
        getPageInfo W identifier cancellable s = (Throw e, s)).
Proof.
  intros Hclear Hraise.
  pose proof (is_cancelled_opt_uncancelled cancellable s Hclear) as Hpoll.
  assert (Hrun : runSubprocess W command cancellable s = (Throw e, s)).
  { rewrite (runSubprocess_escape W command cancellable s e);
      rewrite Hpoll; cbn [snd]; try reflexivity; [|exact Hraise].
    destruct Hclear as [->|Hf]; [reflexivity|].
    unfold observed. rewrite Hf. now destruct cancellable. }
  split; [exact Hrun|]. split.
  - intros terms <-. unfold searchManPages, bind.
    now rewrite Hpoll, Hrun.
  - intros identifier <-. unfold getPageInfo, bind.
    now rewrite Hpoll, Hrun.
Qed.

(** The search terms [it's]: the quote stays open. *)
Lemma runSubprocess_raises_before_try_witness :
  uncancelled (Some RequestCancellable) Demo.idle
  /\ shell_parse_argv Demo.world (apropos_command [lit "it's"])
     = Throw (GLibError (lit "Text ended before matching quote was found"))
  /\ searchManPages Demo.world [lit "it's"]
                    (Some RequestCancellable) Demo.idle
     = (Throw (GLibError (lit "Text ended before matching quote was found")),
        Demo.idle).
Proof.
  assert (H : uncancelled (Some RequestCancellable) Demo.idle)
    by (right; reflexivity).
  split; [exact H|]. split; [reflexivity|].
  exact (proj1 (proj2 (runSubprocess_raises_before_try
                         Demo.world (apropos_command [lit "it's"])
                         (Some RequestCancellable) Demo.idle
                         (GLibError
                            (lit "Text ended before matching quote was found"))
                         H (or_introl eq_refl)))
               [lit "it's"] eq_refl).
Defined.

(** A command that is not installed: the spawn error of
    [Gio.Subprocess.new] reaches the caller as well. *)
Example runSubprocess_spawn_error :
  runSubprocess Demo.world (lit "man -k ls") None Demo.idle
  = (Throw (GLibError (lit "Failed to execute child process")), Demo.idle).
Proof. reflexivity. Qed.

(** ** getInitialResultSet *)

(** C9.  With no terms, or a first term shorter than two characters,
    [getInitialResultSet] returns the empty list and no process event
    happens; a first term of two characters or more passes the guard
    whatever the other terms are, and the search runs. *)
Theorem getInitialResultSet_minimum_query_length
        (W : World) (cancellable : Cancellable) (s : Sys) :
  (forall terms,
      terms = []
      \/ (exists term rest, terms = term :: rest /\ length term < 2) ->
      fst (getInitialResultSet W terms cancellable s) = Ret []
      /\ trace (snd (getInitialResultSet W terms cancellable s)) = trace s)
  /\ (forall term rest,
      2 <= length term ->
      fst (is_cancelled cancellable s) = Ret false ->
      getInitialResultSet W (term :: rest) cancellable s
      = (resultIdentifiers <- searchManPages W (term :: rest)
                                             (Some cancellable) ;;
         c <- is_cancelled cancellable ;;
         if c then ret [] else ret resultIdentifiers)
          (snd (is_cancelled cancellable s))).
Proof.
  split.
  - intros terms Hshort.
    assert (Hlen : (first_term_length terms <? 2) = true).
    { apply Nat.ltb_lt.
      destruct Hshort as [->|(term & rest & -> & H)]; cbn; lia. }
    unfold getInitialResultSet, bind. rewrite Hlen.
    observe s1 H1; cbn [fst snd]; auto.
  - intros term rest Hlen.
    unfold getInitialResultSet.
    unfold bind at 1.
    destruct (is_cancelled cancellable s) as [[[|]|e] s1]; cbn [fst snd];
      try discriminate.
    intros _. cbn [first_term_length].
    destruct (Nat.ltb_spec (length term) 2) as [H|H]; [lia|reflexivity].
Qed.

Lemma getInitialResultSet_minimum_query_length_witness :
  (fst (getInitialResultSet Demo.world [] RequestCancellable Demo.idle)
   = Ret []
   /\ trace (snd (getInitialResultSet Demo.world []
                                      RequestCancellable Demo.idle)) = [])
  /\ (fst (getInitialResultSet Demo.world [lit "l"; lit "directory"]
                               RequestCancellable Demo.idle)
      = Ret []
      /\ trace (snd (getInitialResultSet Demo.world [lit "l"; lit "directory"]
                                         RequestCancellable Demo.idle)) = [])
  /\ getInitialResultSet Demo.world [lit "ls"; lit "x"]
                         RequestCancellable (Demo.cancelled_after 3)
     = (resultIdentifiers <- searchManPages Demo.world [lit "ls"; lit "x"]
                                            (Some RequestCancellable) ;;
        c <- is_cancelled RequestCancellable ;;
        if c then ret [] else ret resultIdentifiers)
         (Demo.cancelled_after 2).
Proof.
  pose proof (getInitialResultSet_minimum_query_length
                Demo.world RequestCancellable Demo.idle) as [Hshort _].
  pose proof (getInitialResultSet_minimum_query_length
                Demo.world RequestCancellable (Demo.cancelled_after 3))
    as [_ Hlong].
  split; [|split].
  - apply (Hshort []). now left.
  - apply (Hshort [lit "l"; lit "directory"]). right.
    exists (lit "l"), [lit "directory"]. split; [reflexivity|cbn; lia].
  - apply (Hlong (lit "ls") [lit "x"]); [cbn; lia|reflexivity].
Defined.

(** A short second term does not stop the search: the command runs. *)
Example getInitialResultSet_short_second_term :
  getInitialResultSet Demo.world [lit "ls"; lit "x"]
                      RequestCancellable Demo.idle
  = (Ret [],
     {| flag := Clear None;
        trace := [Spawned {| pid := 0;
                             argv := [lit "apropos"; lit "--and";
                                      lit "ls"; lit "x"] |};
                  ForceExit {| pid := 0;
                               argv := [lit "apropos"; lit "--and";
                                        lit "ls"; lit "x"] |}] |}).
Proof. reflexivity. Qed.

(** ** getResultMetas *)

Section ResultMetas.
Variables (W : World) (cancellable : Cancellable).

Lemma id_make_meta (identifier : str) (pageInfo : str * str) :
  id (make_meta W identifier pageInfo) = identifier.
Proof. now destruct pageInfo. Qed.

(** The loop returns nothing, or the metas built so far followed by
    one meta for each remaining identifier. *)
Lemma getResultMetas_loop_ids (identifiers : list str) :
  forall (resultMetas metas : list ResultMeta) (s : Sys),
    fst (getResultMetas_loop W identifiers cancellable resultMetas s)
    = Ret metas ->
    metas = [] \/ map id metas = map id resultMetas ++ identifiers.
Proof.
  induction identifiers as [|identifier rest IH]; intros resultMetas metas s;
    cbn [getResultMetas_loop]; unfold bind.
  - observe s1 H1; cbn; intros [= <-]; [now left|right].
    now rewrite app_nil_r.
  - observe s1 H1; [cbn; intros [= <-]; now left|].
    destruct (getPageInfo W identifier (Some cancellable) s1)
      as [[[pageInfo|]|e] s2].
    + intros H. apply IH in H. destruct H as [H|H]; [now left|right].
      rewrite H, map_app, <- app_assoc. cbn.
      now rewrite id_make_meta.
    + cbn. intros [= <-]. now left.
    + cbn. discriminate.
Qed.

Lemma getResultMetas_loop_observed (identifiers : list str) :
  forall (resultMetas : list ResultMeta) (s : Sys),
    observed (Some cancellable)
             (snd (getResultMetas_loop W identifiers cancellable
                                       resultMetas s)) = true ->
    fst (getResultMetas_loop W identifiers cancellable resultMetas s)
    = Ret [].
Proof.
  induction identifiers as [|identifier rest IH]; intros resultMetas s;
    cbn [getResultMetas_loop]; unfold bind.
  - observe s1 H1; [reflexivity|]. cbn [snd ret]. congruence.
  - observe s1 H1; [reflexivity|].
    pose proof (getPageInfo_observed W identifier (Some cancellable) s1)
      as Hpage.
    destruct (getPageInfo W identifier (Some cancellable) s1)
      as [[[pageInfo|]|e] s2]; cbn [fst snd] in *.
    + apply IH.
    + reflexivity.
    + intros H. specialize (Hpage H). discriminate.
Qed.
End ResultMetas.

(** C10.  [getResultMetas] returns all or nothing: a result that is not
    empty has one meta for each identifier, in order, whose [id] is that
    identifier; the loop returns the empty array as soon as
    [getPageInfo] returns [null], whatever metas it has built; and a call
    that has seen the flag set returns the empty array. *)
Theorem getResultMetas_all_or_nothing
        (W : World) (cancellable : Cancellable) :
  (forall identifiers s metas,
      fst (getResultMetas W identifiers cancellable s) = Ret metas ->
      metas <> [] ->
      map id metas = identifiers)
  /\ (forall identifier rest resultMetas s,
      fst (getPageInfo W identifier (Some cancellable)
                       (snd (is_cancelled cancellable s))) = Ret None ->
      fst (getResultMetas_loop W (identifier :: rest) cancellable
                               resultMetas s)
      = Ret [])
  /\ (forall identifiers s,
      flag (snd (getResultMetas W identifiers cancellable s)) = Cancelled ->
      fst (getResultMetas W identifiers cancellable s) = Ret []).
Proof.
  split; [|split].
  - intros identifiers s metas. unfold getResultMetas, bind.
    observe s1 H1.
    + cbn. intros [= <-]. congruence.
    + intros H Hne.
      apply getResultMetas_loop_ids in H. destruct H as [H|H]; [congruence|].
      exact H.
  - intros identifier rest resultMetas s.
    cbn [getResultMetas_loop]. unfold bind.
    observe s1 H1; [reflexivity|]. cbn [snd].
    destruct (getPageInfo W identifier (Some cancellable) s1)
      as [[[pageInfo|]|e] s2]; cbn [fst]; try discriminate.
    reflexivity.
  - intros identifiers s H. apply (observed_Cancelled cancellable) in H.
    revert H. unfold getResultMetas, bind.
    observe s1 H1; [reflexivity|].
    apply getResultMetas_loop_observed.
Qed.

Lemma getResultMetas_all_or_nothing_witness :
  map id (match fst (getResultMetas Demo.world [lit "1|ls"; lit "3|readdir"]
                                    RequestCancellable Demo.idle) with
          | Ret metas => metas
          | Throw _ => []
          end)
  = [lit "1|ls"; lit "3|readdir"]
  /\ fst (getResultMetas_loop Demo.world [lit "9|nope"; lit "3|readdir"]
                              RequestCancellable
                              [make_meta Demo.world (lit "1|ls")
                                         (lit "ls (1)", lit "list")]
                              Demo.idle)
     = Ret []
  /\ fst (getResultMetas Demo.world [lit "1|ls"; lit "3|readdir"]
                         RequestCancellable (Demo.cancelled_after 9))
     = Ret [].
Proof.
  destruct (getResultMetas_all_or_nothing Demo.world RequestCancellable)
    as (Hids & Hnull & Hflag).
  split; [|split].
  - apply (Hids [lit "1|ls"; lit "3|readdir"] Demo.idle);
      [reflexivity|discriminate].
  - apply Hnull. reflexivity.
  - apply Hflag. reflexivity.
Defined.

(** A page that is missing in the middle empties the whole result. *)
Example getResultMetas_missing_page :
  fst (getResultMetas Demo.world [lit "1|ls"; lit "9|nope"; lit "3|readdir"]
                      RequestCancellable Demo.idle)
  = Ret [].
Proof. reflexivity. Qed.

(** * Further properties of the code *)

(** ** The matchers *)

Section MatcherFacts.
Variable R : Type.
Variable p : char -> bool.

Lemma star_sound (s : str) :
  forall (k : str -> str -> option R) (r : R),
    star p s k = Some r ->
    exists m rest,
      s = m ++ rest /\ Forall (fun c => p c = true) m /\ k m rest = Some r.
Proof.
  induction s as [|c s IH]; intros k r; cbn.
  - intros H. exists [], []. auto.
  - destruct (p c) eqn:Hc.
    + destruct (star p s (fun m rest => k (c :: m) rest)) as [r'|] eqn:E.
      * intros [= <-]. apply IH in E as (m & rest & -> & Hm & Hk).
        exists (c :: m), rest. auto.
      * intros H. exists [], (c :: s). auto.
    + intros H. exists [], (c :: s). auto.
Qed.

Lemma plus_sound (s : str) (k : str -> str -> option R) (r : R) :
  plus p s k = Some r ->
  exists m rest,
    s = m ++ rest /\ m <> [] /\ Forall (fun c => p c = true) m
    /\ k m rest = Some r.
Proof.
  destruct s as [|c s]; cbn; [discriminate|].
  destruct (p c) eqn:Hc; [|discriminate].
  intros H. apply star_sound in H as (m & rest & -> & Hm & Hk).
  exists (c :: m), rest. repeat split; auto. discriminate.
Qed.

(** The repetition that cannot be made longer is tried first. *)
Lemma star_longest (m rest : str) :
  forall (k : str -> str -> option R) (r : R),
    Forall (fun c => p c = true) m ->
    match rest with [] => True | c :: _ => p c = false end ->
    k m rest = Some r ->
    star p (m ++ rest) k = Some r.
Proof.
  induction m as [|c m IH]; intros k r Hm Hrest Hk.
  - destruct rest as [|c rest]; cbn; [exact Hk|]. now rewrite Hrest.
  - inversion Hm as [|? ? Hc Hm']; subst. cbn. rewrite Hc.
    now rewrite (IH (fun m' rest' => k (c :: m') rest') r Hm' Hrest Hk).
Qed.

Lemma plus_longest (m rest : str) (k : str -> str -> option R) (r : R) :
  m <> [] ->
  Forall (fun c => p c = true) m ->
  match rest with [] => True | c :: _ => p c = false end ->
  k m rest = Some r ->
  plus p (m ++ rest) k = Some r.
Proof.
  destruct m as [|c m]; [congruence|]. intros _ Hm Hrest Hk.
  inversion Hm as [|? ? Hc Hm']; subst. cbn. rewrite Hc.
  now apply star_longest.
Qed.
End MatcherFacts.

Lemma chr_sound (R : Type) (c : char) (s : str) (k : str -> option R)
      (r : R) :
  chr c s k = Some r -> exists rest, s = c :: rest /\ k rest = Some r.
Proof.
  destruct s as [|c' s]; cbn; [discriminate|].
  destruct (N.eqb_spec c' c) as [->|]; [|discriminate]. eauto.
Qed.

Lemma line_match_parts (line pageName section description : str) :
  line_match line = Some (pageName, section, description) ->
  exists ws1 ws2 ws3 tail,
    line = pageName ++ ws1 ++ [LPAREN] ++ section ++ [RPAREN] ++ ws2
           ++ [MINUS] ++ ws3 ++ description ++ tail
    /\ pageName <> [] /\ Forall (fun c => not_space c = true) pageName
    /\ section <> [] /\ Forall (fun c => not_rparen c = true) section
    /\ description <> [] /\ Forall (fun c => dot c = true) description
    /\ Forall (fun c => is_space c = true) ws1
    /\ Forall (fun c => is_space c = true) ws2
    /\ Forall (fun c => is_space c = true) ws3.
Proof.
  unfold line_match. intros H.
  apply plus_sound in H as (n & r1 & -> & Hn0 & Hn & H).
  apply star_sound in H as (ws1 & r2 & -> & Hws1 & H).
  apply chr_sound in H as (r3 & -> & H).
  apply plus_sound in H as (sec & r4 & -> & Hs0 & Hs & H).
  apply chr_sound in H as (r5 & -> & H).
  apply star_sound in H as (ws2 & r6 & -> & Hws2 & H).
  apply chr_sound in H as (r7 & -> & H).
  apply star_sound in H as (ws3 & r8 & -> & Hws3 & H).
  apply plus_sound in H as (d & tail & -> & Hd0 & Hd & H).
  injection H as <- <- <-.
  exists ws1, ws2, ws3, tail. repeat split; auto.
Qed.

Lemma not_space_black (s : str) :
  Forall (fun c => not_space c = true) s ->
  Forall (fun c => is_space c = false) s.
Proof.
  apply Forall_impl. unfold not_space. intros c Hc.
  now apply negb_true_iff in Hc.
Qed.

(** X1.  What the pattern accepts: a match splits the line into a name
    of one or more characters that are not white space, optional white
    space, an opening parenthesis, a section of one or more characters
    other than the closing parenthesis, the closing parenthesis, optional
    white space, a hyphen, optional white space, a description of one or
    more characters without line terminator, and an unread remainder;
    the three groups are the name, the section and the description. *)
Theorem line_match_sound (line pageName section description : str) :
  line_match line = Some (pageName, section, description) ->
  exists ws1 ws2 ws3 tail,
    line = pageName ++ ws1 ++ [LPAREN] ++ section ++ [RPAREN] ++ ws2
           ++ [MINUS] ++ ws3 ++ description ++ tail
    /\ pageName <> [] /\ Forall (fun c => is_space c = false) pageName
    /\ section <> [] /\ Forall (fun c => c <> RPAREN) section
    /\ description <> []
    /\ Forall (fun c => is_line_terminator c = false) description
    /\ Forall (fun c => is_space c = true) (ws1 ++ ws2 ++ ws3).
Proof.
  intros H.
  apply line_match_parts in H
    as (ws1 & ws2 & ws3 & tail & Hline & Hn0 & Hn & Hs0 & Hs & Hd0 & Hd
        & Hws1 & Hws2 & Hws3).
  exists ws1, ws2, ws3, tail. repeat split; auto.
  - now apply not_space_black.
  - eapply Forall_impl; [|exact Hs]. unfold not_rparen. intros c Hc.
    apply negb_true_iff in Hc. now apply N.eqb_neq in Hc.
  - eapply Forall_impl; [|exact Hd]. unfold dot. intros c Hc.
    now apply negb_true_iff in Hc.
  - apply Forall_app. split; [exact Hws1|].
    apply Forall_app. split; assumption.
Qed.

Lemma line_match_sound_witness :
  exists ws1 ws2 ws3 tail,
    lit "ls(1)-x" ++ [13%N] ++ lit "y"
    = lit "ls" ++ ws1 ++ [LPAREN] ++ lit "1" ++ [RPAREN] ++ ws2
      ++ [MINUS] ++ ws3 ++ lit "x" ++ tail
    /\ lit "ls" <> [] /\ Forall (fun c => is_space c = false) (lit "ls")
    /\ lit "1" <> [] /\ Forall (fun c => c <> RPAREN) (lit "1")
    /\ lit "x" <> []
    /\ Forall (fun c => is_line_terminator c = false) (lit "x")
    /\ Forall (fun c => is_space c = true) (ws1 ++ ws2 ++ ws3).
Proof.
  exact (line_match_sound (lit "ls(1)-x" ++ [13%N] ++ lit "y")
           (lit "ls") (lit "1") (lit "x") eq_refl).
Defined.

(** X2.  Formatting then matching: a name free of white space, white
    space, a parenthesised section free of [)], a hyphen with white space
    around it or not, and a description that starts with a character that
    is not white space and holds no line terminator, match as exactly
    that name, section and description, whatever the padding. *)
Theorem line_match_formatted
        (pageName ws1 section ws2 ws3 description : str) :
  pageName <> [] -> Forall (fun c => is_space c = false) pageName ->
  ws1 <> [] -> Forall (fun c => is_space c = true) (ws1 ++ ws2 ++ ws3) ->
  section <> [] -> Forall (fun c => c <> RPAREN) section ->
  starts_black description ->
  Forall (fun c => is_line_terminator c = false) description ->
  line_match (pageName ++ ws1 ++ [LPAREN] ++ section ++ [RPAREN] ++ ws2
              ++ [MINUS] ++ ws3 ++ description)
  = Some (pageName, section, description).
Proof.
  intros Hn0 Hn Hw0 Hws Hs0 Hs Hd0 Hd.
  apply Forall_app in Hws as [Hws1 Hws]. apply Forall_app in Hws as [Hws2 Hws3].
  unfold line_match.
  apply plus_longest; [exact Hn0| | |].
  { eapply Forall_impl; [|exact Hn]. unfold not_space. now intros c ->. }
  { destruct ws1 as [|c ws1]; [congruence|]. cbn.
    inversion Hws1; subst. unfold not_space.
    now apply negb_false_iff. }
  apply star_longest; [exact Hws1|reflexivity|].
  cbn [app chr]. rewrite N.eqb_refl.
  apply plus_longest; [exact Hs0| | |].
  { eapply Forall_impl; [|exact Hs]. unfold not_rparen. intros c Hc.
    apply negb_true_iff. now apply N.eqb_neq. }
  { reflexivity. }
  cbn [app chr]. rewrite N.eqb_refl.
  apply star_longest; [exact Hws2|reflexivity|].
  cbn [app chr]. rewrite N.eqb_refl.
  apply star_longest; [exact Hws3| |].
  { destruct Hd0 as (c & rest & -> & Hc). exact Hc. }
  rewrite <- (app_nil_r description) at 1.
  apply plus_longest; [| |exact I|reflexivity].
  - destruct Hd0 as (c & rest & -> & _). discriminate.
  - eapply Forall_impl; [|exact Hd]. unfold dot. now intros c ->.
Qed.

Lemma line_match_formatted_witness :
  line_match (lit "ls (1)   - list directory contents")
  = Some (lit "ls", lit "1", lit "list directory contents").
Proof.
  refine (line_match_formatted (lit "ls") (lit " ") (lit "1") (lit "   ")
            (lit " ") (lit "list directory contents") _ _ _ _ _ _ _ _);
    try discriminate;
    try (repeat constructor; discriminate).
  exists 108%N, (lit "ist directory contents"). split; reflexivity.
Defined.

(** ** Trimmed components *)

Lemma trimStart_head (s : str) (c : char) (rest : str) :
  trimStart s = c :: rest -> is_space c = false.
Proof.
  induction s as [|x s IH]; cbn; [discriminate|].
  destruct (is_space x) eqn:Hx; [exact IH|]. now intros [= <- _].
Qed.

Lemma trimStart_keeps_last (a : str) (c : char) :
  is_space c = false -> exists u, trimStart (a ++ [c]) = u ++ [c].
Proof.
  intros Hc. induction a as [|x a IH]; cbn.
  - rewrite Hc. now exists [].
  - destruct (is_space x); [exact IH|]. now exists (x :: a).
Qed.

Lemma trimmed_trim (s : str) : trimmed (trim s).
Proof.
  unfold trim, trimEnd. split.
  - intros c rest H.
    destruct (trimStart s) as [|c0 y] eqn:E; [discriminate|].
    pose proof (trimStart_head s c0 y E) as Hc0.
    cbn [rev] in H.
    destruct (trimStart_keeps_last (rev y) c0 Hc0) as (u & Hu).
    rewrite Hu, rev_app_distr in H. cbn in H. now injection H as <- _.
  - intros c front H.
    apply (f_equal (@rev char)) in H.
    rewrite rev_involutive, rev_app_distr in H. cbn in H.
    exact (trimStart_head _ _ _ H).
Qed.

Lemma trimStart_black (s : str) :
  Forall (fun c => is_space c = false) s -> trimStart s = s.
Proof. destruct 1 as [|c s Hc _]; cbn; [reflexivity|now rewrite Hc]. Qed.

Lemma trim_black (s : str) :
  Forall (fun c => is_space c = false) s -> trim s = s.
Proof.
  intros H. unfold trim, trimEnd. rewrite (trimStart_black s H).
  rewrite trimStart_black by now apply Forall_rev.
  apply rev_involutive.
Qed.

Lemma line_tuples_trimmed (line pageName section description : str) :
  In (pageName, section, description) (line_tuples line) ->
  pageName <> []
  /\ Forall (fun c => is_space c = false) pageName
  /\ trimmed section /\ trimmed description.
Proof.
  unfold line_tuples.
  destruct (line_match line) as [[[n sec] d]|] eqn:E; [|contradiction].
  intros [[= <- <- <-]|[]].
  apply line_match_parts in E
    as (ws1 & ws2 & ws3 & tail & _ & Hn0 & Hn & _).
  apply not_space_black in Hn.
  rewrite (trim_black n Hn). auto using trimmed_trim.
Qed.

(** X3.  Every tuple [parseOutput] returns has a name that is not empty
    and holds no white space at all, and a section and a description
    without white space at either end. *)
Theorem parseOutput_tuples_trimmed
        (output : str) (cancellable : option Cancellable) (s : Sys)
        (results : list ManPageMetaInfo) :
  fst (parseOutput output cancellable s) = Ret results ->
  forall pageName section description,
    In (pageName, section, description) results ->
    pageName <> []
    /\ Forall (fun c => is_space c = false) pageName
    /\ trimmed section /\ trimmed description.
Proof.
  destruct (parseOutput_run output cancellable s) as (s' & -> & _).
  cbn [fst]. destruct (observed cancellable s'); [discriminate|].
  intros [= <-] n sec d Hin.
  apply in_flat_map in Hin as (line & _ & Hin).
  exact (line_tuples_trimmed line n sec d Hin).
Qed.

Lemma parseOutput_tuples_trimmed_witness :
  fst (parseOutput (lit "tar (1)  -   an archiving utility  ")
                   None Demo.idle)
  = Ret [(lit "tar", lit "1", lit "an archiving utility")]
  /\ (lit "tar" <> []
      /\ Forall (fun c => is_space c = false) (lit "tar")
      /\ trimmed (lit "1") /\ trimmed (lit "an archiving utility")).
Proof.
  split; [reflexivity|].
  refine (parseOutput_tuples_trimmed
            (lit "tar (1)  -   an archiving utility  ") None Demo.idle
            _ eq_refl _ _ _ _).
  now left.
Defined.

(** ** How often parseOutput looks at the flag *)

Lemma parseOutput_loop_fuse (lines : list str) (c : Cancellable) :
  forall (results : list ManPageMetaInfo) (n : nat) (t : list Event),
    parseOutput_loop lines (Some c) results
                     {| flag := Clear (Some n); trace := t |}
    = if n <? length lines
      then (Throw CancelledError, {| flag := Cancelled; trace := t |})
      else (Ret (results ++ parse_lines lines),
            {| flag := Clear (Some (n - length lines)); trace := t |}).
Proof.
  induction lines as [|line rest IH]; intros results n t.
  - cbn. now rewrite app_nil_r, Nat.sub_0_r.
  - cbn [parseOutput_loop length]. unfold bind. destruct n as [|n].
    + reflexivity.
    + cbn [is_cancelled_opt is_cancelled flag poll trace].
      rewrite IH. change (S n <? S (length rest)) with (n <? length rest).
      destruct (n <? length rest); [reflexivity|].
      cbn [Nat.sub]. rewrite parse_lines_cons. unfold line_tuples.
      destruct (line_match line) as [[[pageName section] description]|];
        [now rewrite <- app_assoc|reflexivity].
Qed.

(** X4.  [parseOutput] looks at the flag once before the first line and
    once after each line: with a flag that [n] observations find clear it
    raises [CancelledError] exactly when the output has [n] lines or
    more, the last line being parsed before the check that discards it;
    otherwise it returns the tuples and has used one observation more
    than there are lines. *)
Theorem parseOutput_observations
        (output : str) (c : Cancellable) (n : nat) (t : list Event) :
  parseOutput output (Some c) {| flag := Clear (Some n); trace := t |}
  = if n <=? length (output_lines output)
    then (Throw CancelledError, {| flag := Cancelled; trace := t |})
    else (Ret (parse_lines (output_lines output)),
          {| flag := Clear (Some (n - S (length (output_lines output))));
             trace := t |}).
Proof.
  unfold parseOutput, bind. destruct n as [|n]; [reflexivity|].
  cbn [is_cancelled_opt is_cancelled flag poll trace].
  rewrite parseOutput_loop_fuse. reflexivity.
Qed.

Lemma parseOutput_observations_witness :
  parseOutput (lit "dir (1) - list" ++ [LF] ++ lit "ls (1) - list")
              (Some RequestCancellable) (Demo.cancelled_after 2)
  = (Throw CancelledError, Demo.cancelled)
  /\ parseOutput (lit "dir (1) - list" ++ [LF] ++ lit "ls (1) - list")
                 (Some RequestCancellable) (Demo.cancelled_after 3)
     = (Ret [(lit "dir", lit "1", lit "list"); (lit "ls", lit "1", lit "list")],
        Demo.cancelled_after 0).
Proof.
  split.
  - exact (parseOutput_observations
             (lit "dir (1) - list" ++ [LF] ++ lit "ls (1) - list")
             RequestCancellable 2 []).
  - exact (parseOutput_observations
             (lit "dir (1) - list" ++ [LF] ++ lit "ls (1) - list")
             RequestCancellable 3 []).
Defined.

Lemma parseOutput_loop_no_cancellable (lines : list str) (s : Sys) :
  forall results,
    parseOutput_loop lines None results s
    = (Ret (results ++ parse_lines lines), s).
Proof.
  induction lines as [|line rest IH]; intros results.
  - cbn. now rewrite app_nil_r.
  - cbn [parseOutput_loop]. unfold bind. cbn [is_cancelled_opt ret].
    rewrite IH, parse_lines_cons. unfold line_tuples.
    destruct (line_match line) as [[[pageName section] description]|];
      [now rewrite <- app_assoc|reflexivity].
Qed.

(** X5.  [parseOutput] raises nothing but [CancelledError], and does so
    exactly when it has seen the flag set; otherwise it returns the
    tuples of the matching lines.  It causes no process event, and
    without a cancellable it leaves the state as it is. *)
Theorem parseOutput_outcomes
        (output : str) (cancellable : option Cancellable) (s : Sys) :
  trace (snd (parseOutput output cancellable s)) = trace s
  /\ (fst (parseOutput output cancellable s) = Throw CancelledError
      /\ observed cancellable (snd (parseOutput output cancellable s)) = true
      \/ fst (parseOutput output cancellable s)
         = Ret (parse_lines (output_lines output))
         /\ observed cancellable (snd (parseOutput output cancellable s))
            = false)
  /\ parseOutput output None s = (Ret (parse_lines (output_lines output)), s).
Proof.
  split; [|split].
  - destruct (parseOutput_run output cancellable s) as (s' & -> & Ht).
    exact Ht.
  - destruct (parseOutput_run output cancellable s) as (s' & -> & _).
    cbn [fst snd]. destruct (observed cancellable s'); auto.
  - unfold parseOutput, bind. cbn [is_cancelled_opt ret].
    now rewrite parseOutput_loop_no_cancellable.
Qed.

(** ** The subprocess of runSubprocess *)

Section RunSubprocessTrace.
Variable W : World.

(** Every way [runSubprocess] can end. *)
Lemma runSubprocess_cases (command : str) (cancellable : option Cancellable)
      (s : Sys) :
  let s1 := snd (is_cancelled_opt cancellable s) in
  let r := fst (runSubprocess W command cancellable s) in
  let s' := snd (runSubprocess W command cancellable s) in
  (r = Ret None /\ trace s' = trace s)
  \/ (exists e,
        r = Throw e /\ s' = s1 /\ observed cancellable s1 = false
        /\ (shell_parse_argv W command = Throw e
            \/ exists args,
                shell_parse_argv W command = Ret (true, Some args)
                /\ spawn_error W s1 args = Some e))
  \/ (exists args result,
        shell_parse_argv W command = Ret (true, Some args)
        /\ spawn_error W s1 args = None
        /\ r = Ret result
        /\ trace s'
           = trace s
             ++ [Spawned {| pid := spawned_count (trace s); argv := args |};
                 ForceExit {| pid := spawned_count (trace s);
                              argv := args |}]).
Proof.
  unfold runSubprocess, bind.
  destruct (is_cancelled_opt_run cancellable s) as (s1 & -> & Ht & _).
  cbn [snd]. destruct (observed cancellable s1) eqn:H1.
  { left. cbn. auto. }
  unfold glib_shell_parse_argv.
  destruct (shell_parse_argv W command) as [[[|] [args|]]|e] eqn:Hargv;
    cbn [fst snd].
  2-4: left; cbn; auto.
  2: { right; left. exists e. cbn. auto. }
  unfold gio_subprocess_new.
  destruct (spawn_error W s1 args) as [e|] eqn:Hspawn.
  { right; left. exists e. cbn. repeat split; auto. right. eauto. }
  right; right. exists args.
  unfold try_catch_finally, bind, communicate_utf8_async, force_exit, emit.
  match goal with
  | |- context [communicate_utf8 W ?s2 ?p] =>
      destruct (communicate_utf8 W s2 p) as [[stdout stderr]|e];
      [destruct (parseOutput_run stdout cancellable s2) as (s3 & -> & Ht3)|]
  end.
  - destruct (observed cancellable s3); cbn; eexists;
      (split; [reflexivity|]); (split; [exact Hspawn|]);
      (split; [reflexivity|]);
      rewrite Ht3; cbn; now rewrite <- app_assoc, Ht.
  - cbn. eexists. split; [reflexivity|]. split; [exact Hspawn|].
    split; [reflexivity|]. now rewrite <- app_assoc, Ht.
Qed.
End RunSubprocessTrace.

(** X6.  [runSubprocess] leaves no process behind: either no process
    event happens, or exactly one subprocess is spawned, for the
    tokenized command line, and forced to exit before the call ends,
    and in that case the call returns and raises nothing. *)
Theorem runSubprocess_reaps
        (W : World) (command : str) (cancellable : option Cancellable)
        (s : Sys) :
  trace (snd (runSubprocess W command cancellable s)) = trace s
  \/ exists args result,
      shell_parse_argv W command = Ret (true, Some args)
      /\ fst (runSubprocess W command cancellable s) = Ret result
      /\ trace (snd (runSubprocess W command cancellable s))
         = trace s
           ++ [Spawned {| pid := spawned_count (trace s); argv := args |};
               ForceExit {| pid := spawned_count (trace s); argv := args |}].
Proof.
  destruct (runSubprocess_cases W command cancellable s)
    as [[_ Ht]|[(e & _ & Hs & _)|(args & result & Ha & _ & Hr & Ht)]].
  - now left.
  - left. rewrite Hs.
    now destruct (is_cancelled_opt_run cancellable s) as (s1 & -> & Ht & _).
  - right. now exists args, result.
Qed.

(** X7.  An exception leaves [runSubprocess] only if
    [GLib.shell_parse_argv] or [Gio.Subprocess.new] raised it, and it is
    that very exception; the call then has not seen its flag set and no
    process event has happened. *)
Theorem runSubprocess_raises_only_before_spawn
        (W : World) (command : str) (cancellable : option Cancellable)
        (s : Sys) (e : Exn) :
  fst (runSubprocess W command cancellable s) = Throw e ->
  (shell_parse_argv W command = Throw e
   \/ exists args,
       shell_parse_argv W command = Ret (true, Some args)
       /\ spawn_error W (snd (is_cancelled_opt cancellable s)) args = Some e)
  /\ trace (snd (runSubprocess W command cancellable s)) = trace s
  /\ observed cancellable (snd (runSubprocess W command cancellable s))
     = false.
Proof.
  intros H.
  destruct (runSubprocess_cases W command cancellable s)
    as [[Hr _]|[(e' & Hr & Hs & Hobs & Hwhy)|(args & result & _ & _ & Hr & _)]];
    rewrite Hr in H; try discriminate.
  injection H as ->. rewrite Hs. repeat split; auto.
  now destruct (is_cancelled_opt_run cancellable s) as (s1 & -> & Ht & _).
Qed.

Lemma runSubprocess_raises_only_before_spawn_witness :
  fst (runSubprocess Demo.world (lit "man -k ls") None Demo.idle)
  = Throw (GLibError (lit "Failed to execute child process"))
  /\ ((shell_parse_argv Demo.world (lit "man -k ls")
       = Throw (GLibError (lit "Failed to execute child process"))
       \/ exists args,
           shell_parse_argv Demo.world (lit "man -k ls")
           = Ret (true, Some args)
           /\ spawn_error Demo.world
                          (snd (is_cancelled_opt None Demo.idle)) args
              = Some (GLibError (lit "Failed to execute child process")))
      /\ trace (snd (runSubprocess Demo.world (lit "man -k ls")
                                   None Demo.idle)) = trace Demo.idle
      /\ observed None (snd (runSubprocess Demo.world (lit "man -k ls")
                                           None Demo.idle)) = false).
Proof.
  split; [reflexivity|].
  exact (runSubprocess_raises_only_before_spawn
           Demo.world (lit "man -k ls") None Demo.idle
           (GLibError (lit "Failed to execute child process")) eq_refl).
Defined.

(** ** No process outlives a call *)

Lemma reaped_app (a b : list Event) :
  reaped a -> reaped b -> reaped (a ++ b).
Proof. induction 1; cbn; [auto|constructor; auto]. Qed.

Section Reaping.
Variable W : World.

Lemma runSubprocess_added (command : str) (cancellable : option Cancellable)
      (s : Sys) :
  exists added,
    trace (snd (runSubprocess W command cancellable s)) = trace s ++ added
    /\ reaped added /\ length added <= 2.
Proof.
  destruct (runSubprocess_cases W command cancellable s)
    as [[_ Ht]|[(e & _ & Hs & _)|(args & result & _ & _ & _ & Ht)]].
  - exists []. rewrite app_nil_r. repeat constructor. exact Ht.
  - exists []. rewrite app_nil_r, Hs. repeat constructor.
    now destruct (is_cancelled_opt_run cancellable s) as (s1 & -> & Ht & _).
  - eexists. split; [exact Ht|]. split; [repeat constructor|cbn; lia].
Qed.

Lemma searchManPages_added (terms : list str)
      (cancellable : option Cancellable) (s : Sys) :
  exists added,
    trace (snd (searchManPages W terms cancellable s)) = trace s ++ added
    /\ reaped added /\ length added <= 2.
Proof.
  unfold searchManPages, bind.
  observe s1 H1.
  { exists []. rewrite app_nil_r. repeat constructor. exact Ht. }
  destruct (runSubprocess_added (apropos_command terms) cancellable s1)
    as (added & Hadd & Hre & Hlen).
  destruct (runSubprocess W (apropos_command terms) cancellable s1)
    as [[[[|entry entries]|]|e] s2]; cbn [snd] in Hadd.
  2: observe s3 H3; [|observe s4 H4].
  all: exists added; cbn; (split; [congruence|auto]).
Qed.

Lemma getPageInfo_added (identifier : str)
      (cancellable : option Cancellable) (s : Sys) :
  exists added,
    trace (snd (getPageInfo W identifier cancellable s)) = trace s ++ added
    /\ reaped added /\ length added <= 2.
Proof.
  unfold getPageInfo, bind.
  observe s1 H1.
  { exists []. rewrite app_nil_r. repeat constructor. exact Ht. }
  destruct (runSubprocess_added (whatis_command identifier) cancellable s1)
    as (added & Hadd & Hre & Hlen).
  destruct (runSubprocess W (whatis_command identifier) cancellable s1)
    as [[[[|[[pageName section] description] entries]|]|e] s2];
    cbn [snd] in Hadd.
  2: observe s3 H3; [|observe s4 H4].
  all: exists added; cbn; (split; [congruence|auto]).
Qed.

Lemma getResultMetas_loop_added (cancellable : Cancellable)
      (identifiers : list str) :
  forall (resultMetas : list ResultMeta) (s : Sys),
  exists added,
    trace (snd (getResultMetas_loop W identifiers cancellable resultMetas s))
    = trace s ++ added
    /\ reaped added /\ length added <= 2 * length identifiers.
Proof.
  induction identifiers as [|identifier rest IH]; intros resultMetas s;
    cbn [getResultMetas_loop]; unfold bind.
  - observe s1 H1; exists []; cbn; rewrite app_nil_r;
      (split; [exact Ht|split; [constructor|lia]]).
  - observe s1 H1.
    { exists []. cbn. rewrite app_nil_r.
      split; [exact Ht|split; [constructor|lia]]. }
    destruct (getPageInfo_added identifier (Some cancellable) s1)
      as (added & Hadd & Hre & Hlen).
    destruct (getPageInfo W identifier (Some cancellable) s1)
      as [[[pageInfo|]|e] s2]; cbn [snd] in Hadd.
    + match goal with
      | |- context [getResultMetas_loop W rest cancellable ?acc s2] =>
          destruct (IH acc s2) as (more & Hmore & Hre' & Hlen')
      end.
      exists (added ++ more). rewrite Hmore, Hadd, Ht, app_assoc.
      split; [reflexivity|]. split; [now apply reaped_app|].
      rewrite length_app. cbn [length]. lia.
    + exists added. cbn. split; [congruence|]. split; [exact Hre|].
      cbn [length]. lia.
    + exists added. cbn. split; [congruence|]. split; [exact Hre|].
      cbn [length]. lia.
Qed.
End Reaping.

(** X8.  [searchManPages] and [getPageInfo] each start at most one
    process, and whatever the outcome, an exception included, the events
    they add to the trace are a spawn followed by the forced exit of the
    same subprocess, or none. *)
Theorem stages_reap
        (W : World) (cancellable : option Cancellable) (s : Sys) :
  (forall terms,
      exists added,
        trace (snd (searchManPages W terms cancellable s)) = trace s ++ added
        /\ reaped added /\ length added <= 2)
  /\ (forall identifier,
      exists added,
        trace (snd (getPageInfo W identifier cancellable s))
        = trace s ++ added
        /\ reaped added /\ length added <= 2).
Proof.
  split; intros x;
    [apply searchManPages_added|apply getPageInfo_added].
Qed.

(** X9.  [getInitialResultSet] starts at most one process and
    [getResultMetas] at most one for each identifier; every process they
    start has been forced to exit when the call ends, exceptions
    included. *)
Theorem provider_reaps
        (W : World) (cancellable : Cancellable) (s : Sys) :
  (forall terms,
      exists added,
        trace (snd (getInitialResultSet W terms cancellable s))
        = trace s ++ added
        /\ reaped added /\ length added <= 2)
  /\ (forall identifiers,
      exists added,
        trace (snd (getResultMetas W identifiers cancellable s))
        = trace s ++ added
        /\ reaped added /\ length added <= 2 * length identifiers).
Proof.
  split.
  - intros terms. unfold getInitialResultSet, bind.
    observe s1 H1.
    { exists []. cbn. rewrite app_nil_r. repeat constructor. exact Ht. }
    destruct (first_term_length terms <? 2).
    { exists []. cbn. rewrite app_nil_r. repeat constructor. exact Ht. }
    destruct (searchManPages_added W terms (Some cancellable) s1)
      as (added & Hadd & Hre & Hlen).
    destruct (searchManPages W terms (Some cancellable) s1)
      as [[identifiers|e] s2]; cbn [snd] in Hadd.
    + observe s3 H3; exists added; cbn; (split; [congruence|auto]).
    + exists added. cbn. split; [congruence|auto].
  - intros identifiers. unfold getResultMetas, bind.
    observe s1 H1.
    { exists []. cbn. rewrite app_nil_r.
      split; [exact Ht|split; [constructor|lia]]. }
    destruct (getResultMetas_loop_added W cancellable identifiers [] s1)
      as (added & Hadd & Hre & Hlen).
    exists added. split; [congruence|auto].
Qed.

Lemma provider_reaps_witness :
  exists added,
    trace (snd (getResultMetas Demo.world [lit "1|ls"; lit "3|readdir"]
                               RequestCancellable Demo.idle))
    = trace Demo.idle ++ added
    /\ reaped added
    /\ length added <= 2 * length [lit "1|ls"; lit "3|readdir"].
Proof.
  exact (proj2 (provider_reaps Demo.world RequestCancellable Demo.idle)
               [lit "1|ls"; lit "3|readdir"]).
Defined.

(** ** What the stages return *)

(** X10.  When the [apropos] command line is tokenized, the command
    starts and answers, and the call does not see its flag set,
    [searchManPages] returns one identifier [section|name] for each
    output line the pattern accepts, in the order of the output and
    without the descriptions. *)
Theorem searchManPages_identifiers_in_order
        (W : World) (terms : list str) (cancellable : option Cancellable)
        (s : Sys) (args : list str) (stdout stderr : str) :
  shell_parse_argv W (apropos_command terms) = Ret (true, Some args) ->
  (forall s0, spawn_error W s0 args = None) ->
  (forall s0 p, argv p = args ->
                communicate_utf8 W s0 p = Ret (stdout, stderr)) ->
  observed cancellable (snd (searchManPages W terms cancellable s)) = false ->
  fst (searchManPages W terms cancellable s)
  = Ret (map identifier_of (parse_lines (output_lines stdout))).
Proof.
  intros Hargv Hspawn Hout Hclear.
  exact (searchManPages_success W (apropos_command terms) args stdout stderr
           Hargv Hspawn Hout terms cancellable s eq_refl Hclear).
Qed.

Lemma searchManPages_identifiers_in_order_witness :
  fst (searchManPages Demo.world [lit "list"; lit "directory"]
                      (Some RequestCancellable) Demo.idle)
  = Ret [lit "1|dir"; lit "1|ls"; lit "3|readdir"].
Proof.
  refine (searchManPages_identifiers_in_order
            Demo.world [lit "list"; lit "directory"]
            (Some RequestCancellable) Demo.idle
            [lit "apropos"; lit "--and"; lit "list"; lit "directory"]
            (lit "dir (1)              - list directory contents" ++ [LF]
             ++ lit "ls (1)               - list directory contents" ++ [LF]
             ++ lit "readdir (3)          - read a directory" ++ [LF])
            [] eq_refl (fun _ => eq_refl) _ eq_refl).
  intros s0 [n a] E. cbn in E. subst a. reflexivity.
Defined.

Section NoOutput.
Variables (W : World) (command : str) (args : list str)
          (stdout stderr : str).
Hypothesis tokenized : shell_parse_argv W command = Ret (true, Some args).
Hypothesis started : forall s0, spawn_error W s0 args = None.
Hypothesis answered :
  forall s0 p, argv p = args -> communicate_utf8 W s0 p = Ret (stdout, stderr).

Lemma runSubprocess_answered (cancellable : option Cancellable) (s : Sys) :
  fst (runSubprocess W command cancellable s) = Ret None
  \/ fst (runSubprocess W command cancellable s)
     = Ret (Some (parse_lines (output_lines stdout))).
Proof.
  destruct (observed cancellable
                     (snd (runSubprocess W command cancellable s))) eqn:E.
  - left. now apply runSubprocess_observed.
  - right. exact (runSubprocess_success W command cancellable s
                    args stdout stderr tokenized started answered E).
Qed.

Lemma searchManPages_no_match (terms : list str)
      (cancellable : option Cancellable) (s : Sys) :
  apropos_command terms = command ->
  parse_lines (output_lines stdout) = [] ->
  fst (searchManPages W terms cancellable s) = Ret [].
Proof.
  intros Hcmd Hnone. unfold searchManPages, bind. rewrite Hcmd.
  observe s1 H1; [reflexivity|].
  destruct (runSubprocess_answered cancellable s1) as [H|H];
    [|rewrite Hnone in H];
    destruct (runSubprocess W command cancellable s1) as [r s2];
    cbn [fst] in H; subst r; reflexivity.
Qed.

Lemma getPageInfo_no_match (identifier : str)
      (cancellable : option Cancellable) (s : Sys) :
  whatis_command identifier = command ->
  parse_lines (output_lines stdout) = [] ->
  fst (getPageInfo W identifier cancellable s) = Ret None.
Proof.
  intros Hcmd Hnone. unfold getPageInfo, bind. rewrite Hcmd.
  observe s1 H1; [reflexivity|].
  destruct (runSubprocess_answered cancellable s1) as [H|H];
    [|rewrite Hnone in H];
    destruct (runSubprocess W command cancellable s1) as [r s2];
    cbn [fst] in H; subst r; reflexivity.
Qed.
End NoOutput.

(** X11.  A command that runs and prints nothing the pattern accepts is
    no error: [searchManPages] returns the empty list and [getPageInfo]
    returns [null], whatever the state of the flag. *)
Theorem no_match_is_no_error
        (W : World) (command : str) (cancellable : option Cancellable)
        (s : Sys) (args : list str) (stdout stderr : str) :
  shell_parse_argv W command = Ret (true, Some args) ->
  (forall s0, spawn_error W s0 args = None) ->
  (forall s0 p, argv p = args ->
                communicate_utf8 W s0 p = Ret (stdout, stderr)) ->
  parse_lines (output_lines stdout) = [] ->
  (forall terms,
      apropos_command terms = command ->
      fst (searchManPages W terms cancellable s) = Ret [])
  /\ (forall identifier,
      whatis_command identifier = command ->
      fst (getPageInfo W identifier cancellable s) = Ret None).
Proof.
  intros Hargv Hspawn Hout Hnone. split.
  - intros terms Hcmd.
    exact (searchManPages_no_match W command args stdout stderr
             Hargv Hspawn Hout terms cancellable s Hcmd Hnone).
  - intros identifier Hcmd.
    exact (getPageInfo_no_match W command args stdout stderr
             Hargv Hspawn Hout identifier cancellable s Hcmd Hnone).
Qed.

Lemma no_match_is_no_error_witness :
  parse_lines (output_lines []) = []
  /\ fst (getPageInfo Demo.world (lit "225|nonexistent")
                      (Some RequestCancellable) (Demo.cancelled_after 4))
     = Ret None.
Proof.
  split; [reflexivity|].
  refine (proj2 (no_match_is_no_error
                   Demo.world (whatis_command (lit "225|nonexistent"))
                   (Some RequestCancellable) (Demo.cancelled_after 4)
                   [lit "whatis"; lit "-l"; lit "-s"; lit "225";
                    lit "nonexistent"]
                   [] (lit "nothing appropriate." ++ [LF])
                   eq_refl (fun _ => eq_refl) _ eq_refl)
                (lit "225|nonexistent") eq_refl).
  intros s0 [n a] E. cbn in E. subst a. reflexivity.
Defined.

(** ** Separators inside an identifier *)

Lemma join_split_replace (c d : char) (s : str) :
  join [d] (split (fun x => (x =? c)%N) s) = replace_char c d s.
Proof.
  induction s as [|x s IH]; [reflexivity|].
  cbn [split replace_char map]. fold (replace_char c d s). rewrite <- IH.
  pose proof (split_not_nil (fun x => (x =? c)%N) s) as Hne.
  destruct (x =? c)%N.
  - destruct (split (fun x => (x =? c)%N) s) as [|q rest];
      [contradiction|reflexivity].
  - destruct (split (fun x => (x =? c)%N) s) as [|q [|q' rest]];
      [contradiction| |]; reflexivity.
Qed.

(** X12.  [getPageInfo] turns every ['|'] of the identifier into a
    space of the [whatis] command line, not only the first: a name or
    section that holds the separator becomes several arguments. *)
Theorem whatis_command_replaces_every_pipe (identifier : str) :
  whatis_command identifier
  = lit "whatis -l -s " ++ replace_char PIPE SPACE identifier.
Proof.
  unfold whatis_command. f_equal.
  exact (join_split_replace PIPE SPACE identifier).
Qed.

(** ** Cancellation in the provider *)

Section ProviderCancellation.
Variables (W : World) (cancellable : Cancellable).

Lemma getInitialResultSet_observed (terms : list str) (s : Sys) :
  observed (Some cancellable)
           (snd (getInitialResultSet W terms cancellable s)) = true ->
  fst (getInitialResultSet W terms cancellable s) = Ret [].
Proof.
  unfold getInitialResultSet, bind.
  observe s1 H1; [reflexivity|].
  destruct (first_term_length terms <? 2); [reflexivity|].
  pose proof (searchManPages_observed W terms (Some cancellable) s1) as Hsearch.
  destruct (searchManPages W terms (Some cancellable) s1)
    as [[identifiers|e] s2]; cbn [fst snd] in *.
  - observe s3 H3; [reflexivity|]. cbn [fst snd ret]. congruence.
  - intros H. specialize (Hsearch H). discriminate.
Qed.

Lemma getInitialResultSet_absorbed (terms : list str) (s : Sys) :
  flag s = Cancelled ->
  getInitialResultSet W terms cancellable s = (Ret [], s).
Proof.
  intros H. apply (observed_Cancelled cancellable) in H.
  unfold getInitialResultSet, bind.
  destruct (is_cancelled_run cancellable s) as (s1 & -> & _ & E).
  now rewrite (E H), H.
Qed.

Lemma getResultMetas_absorbed (identifiers : list str) (s : Sys) :
  flag s = Cancelled ->
  getResultMetas W identifiers cancellable s = (Ret [], s).
Proof.
  intros H. apply (observed_Cancelled cancellable) in H.
  unfold getResultMetas, bind.
  destruct (is_cancelled_run cancellable s) as (s1 & -> & _ & E).
  now rewrite (E H), H.
Qed.
End ProviderCancellation.

(** X13.  A call of [getInitialResultSet] or [getSubsearchResultSet] that
    has seen the flag set, at any check of the provider or of the engine
    below it, returns the empty list. *)
Theorem result_set_cancelled
        (W : World) (cancellable : Cancellable) (s : Sys) (terms : list str) :
  (flag (snd (getInitialResultSet W terms cancellable s)) = Cancelled ->
   fst (getInitialResultSet W terms cancellable s) = Ret [])
  /\ (forall previousIdentifiers,
      flag (snd (getSubsearchResultSet W previousIdentifiers terms
                                       cancellable s)) = Cancelled ->
      fst (getSubsearchResultSet W previousIdentifiers terms cancellable s)
      = Ret []).
Proof.
  split.
  - intros H. apply (observed_Cancelled cancellable) in H.
    now apply getInitialResultSet_observed.
  - intros previous H. apply (observed_Cancelled cancellable) in H.
    revert H. unfold getSubsearchResultSet, bind.
    observe s1 H1; [reflexivity|].
    apply getInitialResultSet_observed.
Qed.

Lemma result_set_cancelled_witness :
  flag (snd (getInitialResultSet Demo.world [lit "list"; lit "directory"]
                                 RequestCancellable
                                 (Demo.cancelled_after 9))) = Cancelled
  /\ fst (getInitialResultSet Demo.world [lit "list"; lit "directory"]
                              RequestCancellable (Demo.cancelled_after 9))
     = Ret []
  /\ fst (getSubsearchResultSet Demo.world [lit "1|ls"]
                                [lit "list"; lit "directory"]
                                RequestCancellable (Demo.cancelled_after 10))
     = Ret [].
Proof.
  split; [reflexivity|]. split.
  - apply (proj1 (result_set_cancelled
                    Demo.world RequestCancellable (Demo.cancelled_after 9)
                    [lit "list"; lit "directory"])).
    reflexivity.
  - apply (proj2 (result_set_cancelled
                    Demo.world RequestCancellable (Demo.cancelled_after 10)
                    [lit "list"; lit "directory"])).
    reflexivity.
Defined.

(** X14.  Once the flag has been seen set, every later call of the
    provider for that request, [getInitialResultSet],
    [getSubsearchResultSet] or [getResultMetas], returns the empty list
    and leaves the state exactly as it was: nothing is spawned and the
    flag stays set, so this holds for any number of calls in a row. *)
Theorem cancelled_is_absorbing
        (W : World) (cancellable : Cancellable) (s : Sys) :
  flag s = Cancelled ->
  (forall terms,
      getInitialResultSet W terms cancellable s = (Ret [], s))
  /\ (forall previousIdentifiers terms,
      getSubsearchResultSet W previousIdentifiers terms cancellable s
      = (Ret [], s))
  /\ (forall identifiers,
      getResultMetas W identifiers cancellable s = (Ret [], s)).
Proof.
  intros H. split; [|split].
  - intros terms. now apply getInitialResultSet_absorbed.
  - intros previous terms. unfold getSubsearchResultSet, bind.
    pose proof H as H'. apply (observed_Cancelled cancellable) in H'.
    destruct (is_cancelled_run cancellable s) as (s1 & -> & _ & E).
    now rewrite (E H'), H'.
  - intros identifiers. now apply getResultMetas_absorbed.
Qed.

Lemma cancelled_is_absorbing_witness :
  flag (snd (getInitialResultSet Demo.world [lit "list"; lit "directory"]
                                 RequestCancellable
                                 (Demo.cancelled_after 9))) = Cancelled
  /\ getResultMetas Demo.world [lit "1|ls"] RequestCancellable
       (snd (getInitialResultSet Demo.world [lit "list"; lit "directory"]
                                 RequestCancellable (Demo.cancelled_after 9)))
     = (Ret [],
        snd (getInitialResultSet Demo.world [lit "list"; lit "directory"]
                                 RequestCancellable (Demo.cancelled_after 9))).
Proof.
  split; [reflexivity|].
  apply (cancelled_is_absorbing Demo.world RequestCancellable). reflexivity.
Defined.

(** ** Activation *)

Section Activation.
Variable W : World.

(** The [try { tokenize; spawn } catch { log }] block of
    [activateResult] and [launchSearch]. *)
Lemma spawn_in_try (command : str) (s : Sys) :
  let run :=
    try_catch
      ('(success, args) <- glib_shell_parse_argv W command ;;
       match success, args with
       | true, Some args =>
           _ <- gio_subprocess_new W args ;;
           ret tt
       | _, _ => ret tt
       end)
      (fun _ => ret tt) s in
  fst run = Ret tt
  /\ flag (snd run) = flag s
  /\ (trace (snd run) = trace s
      \/ exists args,
          shell_parse_argv W command = Ret (true, Some args)
          /\ spawn_error W s args = None
          /\ trace (snd run)
             = trace s
               ++ [Spawned {| pid := spawned_count (trace s);
                              argv := args |}]).
Proof.
  unfold try_catch, bind, glib_shell_parse_argv, gio_subprocess_new.
  destruct (shell_parse_argv W command) as [[[|] [args|]]|e] eqn:Hargv;
    cbn; auto.
  destruct (spawn_error W s args) as [e|] eqn:Hspawn; cbn; auto.
  repeat split. right. exists args. auto.
Qed.
End Activation.

(** X15.  [activateResult] raises nothing, whatever the tokenizer or the
    spawn raise, and never looks at a cancellation flag; it starts at
    most one process, for the tokenized [man] command line, and does not
    force it to exit. *)
Theorem activateResult_never_raises
        (W : World) (identifier : str) (terms : list str) (s : Sys) :
  fst (activateResult W identifier terms s) = Ret tt
  /\ flag (snd (activateResult W identifier terms s)) = flag s
  /\ (trace (snd (activateResult W identifier terms s)) = trace s
      \/ exists args,
          shell_parse_argv W (man_command identifier) = Ret (true, Some args)
          /\ spawn_error W s args = None
          /\ trace (snd (activateResult W identifier terms s))
             = trace s
               ++ [Spawned {| pid := spawned_count (trace s);
                              argv := args |}]).
Proof. unfold activateResult. apply spawn_in_try. Qed.

(** X16.  [launchSearch] raises nothing either, never looks at a
    cancellation flag, and starts at most one process, for the tokenized
    terminal command line, which it does not force to exit. *)
Theorem launchSearch_never_raises
        (W : World) (terms : list str) (s : Sys) :
  fst (launchSearch W terms s) = Ret tt
  /\ flag (snd (launchSearch W terms s)) = flag s
  /\ (trace (snd (launchSearch W terms s)) = trace s
      \/ exists args,
          shell_parse_argv W (launch_command terms) = Ret (true, Some args)
          /\ spawn_error W s args = None
          /\ trace (snd (launchSearch W terms s))
             = trace s
               ++ [Spawned {| pid := spawned_count (trace s);
                              argv := args |}]).
Proof. unfold launchSearch. apply spawn_in_try. Qed.

(** The search terms [it's], which make [searchManPages] raise, are
    swallowed by [launchSearch]. *)
Example launchSearch_open_quote :
  launchSearch Demo.world [lit "it's"] Demo.idle = (Ret tt, Demo.idle).
Proof. reflexivity. Qed.

(** X17.  The command line of [activateResult]: for the identifier of a
    parsed entry whose name and section hold no ['|'] it is
    [gnome-terminal -- man <section> <name>]; what follows a second
    ['|'] is ignored; and an identifier without ['|'] gives the name
    [undefined]. *)
Theorem man_command_of_identifier (section pageName : str) :
  no_pipe section ->
  (no_pipe pageName ->
   forall description,
     man_command (identifier_of (pageName, section, description))
     = lit "gnome-terminal -- man " ++ section ++ lit " " ++ pageName)
  /\ (no_pipe pageName ->
      forall more,
        man_command (section ++ lit "|" ++ pageName ++ lit "|" ++ more)
        = lit "gnome-terminal -- man " ++ section ++ lit " " ++ pageName)
  /\ man_command section
     = lit "gnome-terminal -- man " ++ section ++ lit " undefined".
Proof.
  intros Hs. split; [|split].
  - intros Hn description. unfold man_command, identifier_of.
    now rewrite split_identifier.
  - intros Hn more. unfold man_command.
    change (lit "|" ++ pageName ++ lit "|" ++ more)
      with (PIPE :: (pageName ++ PIPE :: more)).
    rewrite !split_at_separator by reflexivity.
    now rewrite !split_without_separator by now apply no_pipe_Forall.
  - unfold man_command.
    now rewrite split_without_separator by now apply no_pipe_Forall.
Qed.

Lemma man_command_of_identifier_witness :
  no_pipe (lit "3") /\ no_pipe (lit "printf")
  /\ man_command (identifier_of (lit "printf", lit "3", lit "formatted output"))
     = lit "gnome-terminal -- man 3 printf"
  /\ man_command (lit "3|printf|x") = lit "gnome-terminal -- man 3 printf"
  /\ man_command (lit "3") = lit "gnome-terminal -- man 3 undefined".
Proof.
  assert (H1 : no_pipe (lit "3")) by (cbv; intuition discriminate).
  assert (H2 : no_pipe (lit "printf")) by (cbv; intuition discriminate).
  destruct (man_command_of_identifier (lit "3") (lit "printf") H1)
    as (Ha & Hb & Hc).
  split; [exact H1|]. split; [exact H2|]. split; [|split].
  - exact (Ha H2 (lit "formatted output")).
  - exact (Hb H2 (lit "x")).
  - exact Hc.
Defined.

(** ** filterResults and the metas *)

Lemma filterResults_firstn (identifiers : list str) (maxResults : Z) :
  filterResults identifiers maxResults = firstn 7 identifiers.
Proof.
  unfold filterResults, ourMax, slice.
  destruct (Nat.leb_spec (length identifiers) 7) as [H|H];
    [now rewrite firstn_all2|reflexivity].
Qed.



Section Metas.
Variables (W : World) (cancellable : Cancellable).



Lemma getResultMetas_ids (identifiers : list str) (s : Sys)
      (metas : list ResultMeta) :
  fst (getResultMetas W identifiers cancellable s) = Ret metas ->
  metas = [] \/ map id metas = identifiers.
Proof.
  unfold getResultMetas, bind.
  observe s1 H1; [cbn; intros [= <-]; now left|].
  intros H. now apply getResultMetas_loop_ids in H.
Qed.
End Metas.



(** X20.  The Shell's pipeline: the metas of a filtered result set are
    seven at most, and when there are any they are those of the first
    seven identifiers, in order. *)
Theorem getResultMetas_of_filtered
        (W : World) (identifiers : list str) (maxResults : Z)
        (cancellable : Cancellable) (s : Sys) (metas : list ResultMeta) :
  fst (getResultMetas W (filterResults identifiers maxResults) cancellable s)
  = Ret metas ->
  length metas <= 7
  /\ (metas <> [] -> map id metas = firstn 7 identifiers).
Proof.
  rewrite filterResults_firstn. intros H.
  apply getResultMetas_ids in H. destruct H as [->|H].
  - split; [cbn; lia|congruence].
  - split; [|now intros _].
    rewrite <- (length_map id), H, length_firstn. lia.
Qed.

Lemma getResultMetas_of_filtered_witness :
  exists metas,
    fst (getResultMetas Demo.world
           (filterResults [lit "1|ls"; lit "3|readdir"] 1)
           RequestCancellable Demo.idle) = Ret metas
    /\ length metas <= 7
    /\ (metas <> [] -> map id metas = [lit "1|ls"; lit "3|readdir"]).
Proof.
  eexists. split; [reflexivity|].
  exact (getResultMetas_of_filtered
           Demo.world [lit "1|ls"; lit "3|readdir"] 1 RequestCancellable
           Demo.idle _ eq_refl).
Defined.
